(** * queryv2.py: a shallow embedding of the Solana transaction scanner

    The development follows the source file:
    - [Py]: the Python behaviours the scanner leans on (exceptions,
      [int / float] true division, [dict.get], insertion-ordered [dict]s,
      [max] with a key, [sorted] on tuples);
    - [Model]: the dataclass and the JSON shapes, [SolanaRPCClient] and
      [TransactionScanner], function by function;
    - the vocabulary of the statements and the concrete inputs at which they
      are evaluated;
    - facts about binary64 comparisons, dictionaries, [max] and [sorted];
    - the statements, component by component.

    Python's [float] is IEEE 754 binary64 with round-to-nearest-even, which
    is Rocq's primitive [float]; Python's [int] is unbounded ([Z]).  Waiting
    ([time.sleep]) and logging have no effect on any value and are left out. *)

From Stdlib Require Import ZArith List String Bool Floats QArith Qabs Lia Permutation Sorted.
Import ListNotations.

Set Warnings "-inexact-float".

(* ------------------------------------------------------------------------- *)
(** * Python primitives *)

Module Py.

(** The exceptions that the scanner's code can raise on the inputs modelled
    here. *)
Inductive exn : Set :=
| TypeError
| AttributeError
| IndexError
| OverflowError.

(** A computation that either returns or raises. *)
Inductive res (A : Type) : Type :=
| Ok (a : A)
| Raise (e : exn).

Arguments Ok {A} a.
Arguments Raise {A} e.

Definition bind {A B : Type} (m : res A) (k : A -> res B) : res B :=
  match m with
  | Ok a => k a
  | Raise e => Raise e
  end.

(** A member of a JSON object: the key may be absent, or present with the
    value [null], or present with a value of the expected shape. *)
Inductive field (A : Type) : Type :=
| Missing
| Null
| Val (a : A).

Arguments Missing {A}.
Arguments Null {A}.
Arguments Val {A} a.

(** [d.get(key, default)]: Python's [None] is [None] here. *)
Definition get {A : Type} (f : field A) (default : option A) : option A :=
  match f with
  | Missing => default
  | Null => None
  | Val a => Some a
  end.

(** [key in d]. *)
Definition contains {A : Type} (f : field A) : bool :=
  match f with
  | Missing => false
  | _ => true
  end.

(** Calling [.get] on a value that may be [None]: ['NoneType' object has no
    attribute 'get']. *)
Definition on_dict {A B : Type} (o : option A) (k : A -> B) : res B :=
  match o with
  | None => Raise AttributeError
  | Some a => Ok (k a)
  end.

(** [float(n)] for an [int]: correctly rounded, [OverflowError] when the
    rounded value does not fit a binary64. *)
Definition float_of_int (n : Z) : res float :=
  let x := SF2Prim (binary_normalize prec emax n 0 false) in
  if PrimFloat.is_infinity x then Raise OverflowError else Ok x.

(** [n / 1e9] for an [int] [n]: the integer is converted to [float] first. *)
Definition div_1e9 (n : Z) : res float :=
  bind (float_of_int n) (fun x => Ok (PrimFloat.div x 1e9)).

(** [None / 1e9] is a [TypeError]. *)
Definition div_1e9_opt (n : option Z) : res float :=
  match n with
  | None => Raise TypeError
  | Some z => div_1e9 z
  end.

(** ** Insertion-ordered dictionaries keyed by [str] *)

Definition dict (V : Type) : Type := list (string * V).

(** [d[k] = v]: an existing key keeps its position and takes the new value, a
    new key goes last. *)
Fixpoint dict_set {V : Type} (k : string) (v : V) (d : dict V) : dict V :=
  match d with
  | [] => [(k, v)]
  | (k', v') :: d' =>
      if String.eqb k' k then (k', v) :: d' else (k', v') :: dict_set k v d'
  end.

Fixpoint dict_lookup {V : Type} (k : string) (d : dict V) : option V :=
  match d with
  | [] => None
  | (k', v') :: d' => if String.eqb k' k then Some v' else dict_lookup k d'
  end.

Definition keys {V : Type} (d : dict V) : list string := map fst d.

(** ** [max(xs, key=...)] on a non-empty list

    CPython keeps the first item and replaces it only by an item whose key
    compares strictly greater. *)
Fixpoint max_from {A : Type} (key : A -> float) (best : A) (xs : list A) : A :=
  match xs with
  | [] => best
  | x :: xs' =>
      if PrimFloat.ltb (key best) (key x) then max_from key x xs'
      else max_from key best xs'
  end.

Definition max_by {A : Type} (key : A -> float) (xs : list A) : option A :=
  match xs with
  | [] => None
  | x :: xs' => Some (max_from key x xs')
  end.

(** ** [sorted(xs, reverse=True)] on pairs of integers

    Tuples compare lexicographically. *)
Definition pair_ltb (a b : Z * Z) : bool :=
  (fst a <? fst b)%Z || ((fst a =? fst b)%Z && (snd a <? snd b)%Z).

Fixpoint insert_desc (a : Z * Z) (l : list (Z * Z)) : list (Z * Z) :=
  match l with
  | [] => [a]
  | b :: l' => if pair_ltb a b then b :: insert_desc a l' else a :: l
  end.

Definition sorted_reverse (l : list (Z * Z)) : list (Z * Z) :=
  fold_right insert_desc [] l.

End Py.

Import Py.

Declare Scope py_scope.
Delimit Scope py_scope with py.
Notation "x <- m ;; k" := (Py.bind m (fun x => k))
  (at level 100, m at next level, right associativity) : py_scope.
Local Open Scope py_scope.

(* ------------------------------------------------------------------------- *)
(** * The program *)

Module Model.

(** ** Data

    [Transaction] is the dataclass of the source; the other records are the
    dictionaries that the scanner builds, one field per key. *)

(** The value stored per account by [_analyze_balance_changes]. *)
Record BalanceChange := {
  pre_balance : float;
  post_balance : float;
  change : float
}.

(** An element of [significant_transfers]. *)
Record Transfer := {
  account : string;
  t_change : float;
  details : BalanceChange
}.

(** The dictionary returned by [_parse_transaction]. *)
Record Parsed := {
  p_amount : float;
  p_sender : option string;
  p_receiver : option string;
  p_fee : float;
  p_balance_changes : dict BalanceChange
}.

Record Transaction := {
  tx_hash : string;
  amount : float;
  block_height : Z;
  block_time : Z;
  sender : option string;
  receiver : option string;
  fee : float;
  balance_changes : dict BalanceChange
}.

(** ** Transaction objects as [getBlock] delivers them

    Every member may be absent or [null]; balances and the fee are integers
    (lamports), account keys and signatures are strings, as the annotations
    of [_analyze_balance_changes] have them.  The error status is opaque. *)

Record Meta := {
  err : field string;
  m_fee : field Z;
  preBalances : field (list Z);
  postBalances : field (list Z)
}.

Record Message := {
  accountKeys : field (list string);
  accounts : field (list string)
}.

(** The value under ["transaction"]. *)
Record Body := {
  b_message : field Message;
  signatures : field (list string)
}.

Record Tx := {
  meta : field Meta;
  transaction : field Body;
  message : field Message
}.

(** The empty dictionary [{}] at each of these shapes. *)
Definition empty_meta : Meta :=
  {| err := Missing; m_fee := Missing; preBalances := Missing; postBalances := Missing |}.
Definition empty_message : Message :=
  {| accountKeys := Missing; accounts := Missing |}.
Definition empty_body : Body :=
  {| b_message := Missing; signatures := Missing |}.

(** ** Configuration held by the objects *)

Record SolanaRPCClient := {
  rpc_url : string;
  min_amount_threshold : float
}.

Record TransactionScanner := {
  client : SolanaRPCClient
}.

(** ** TransactionScanner._analyze_balance_changes *)

Section Analyze.
Variable self : TransactionScanner.
Variables (pre_balances post_balances : list Z) (account_keys : list string).

(** [xs[i]]; every use below is guarded by a bound on [i]. *)
Definition item {A : Type} (xs : list A) (i : nat) : res A :=
  match nth_error xs i with
  | Some x => Ok x
  | None => Raise IndexError
  end.

(** The three floats computed at index [i]. *)
Definition entry_at (i : nat) : res BalanceChange :=
  pre <- item pre_balances i ;;
  pre_bal <- div_1e9 pre ;;
  post <- item post_balances i ;;
  post_bal <- div_1e9 post ;;
  Ok {| pre_balance := pre_bal;
        post_balance := post_bal;
        change := PrimFloat.sub post_bal pre_bal |}.

(** [abs(change) >= self.client.min_amount_threshold]. *)
Definition significant (c : float) : bool :=
  PrimFloat.leb (min_amount_threshold (client self)) (PrimFloat.abs c).

(** The body of the [for] loop, over the indices still to visit. *)
Fixpoint analyze_loop (indices : list nat) (changes : dict BalanceChange)
  : res (dict BalanceChange) :=
  match indices with
  | [] => Ok changes
  | i :: rest =>
      if (List.length post_balances <=? i)%nat || (List.length account_keys <=? i)%nat
      then analyze_loop rest changes
      else
        e <- entry_at i ;;
        if significant (change e) then
          k <- item account_keys i ;;
          analyze_loop rest (dict_set k e changes)
        else analyze_loop rest changes
  end.

Definition _analyze_balance_changes : res (dict BalanceChange) :=
  analyze_loop (seq 0 (List.length pre_balances)) [].
End Analyze.

(** ** TransactionScanner._parse_transaction *)

Section Parse.
Variable self : TransactionScanner.

(** Lines 170-177: the candidates, in the dictionary's iteration order. *)
Definition significant_transfers_of (balance_changes : dict BalanceChange)
  : list Transfer :=
  flat_map
    (fun '(acc, changes) =>
       if significant self (change changes)
       then [{| account := acc; t_change := change changes; details := changes |}]
       else [])
    balance_changes.

(** Line 182: [abs(amount - target_amount) <= tolerance]. *)
Definition within_tolerance (target_amount tolerance : float) (t : Transfer) : bool :=
  let amount := PrimFloat.abs (t_change t) in
  PrimFloat.leb (PrimFloat.abs (PrimFloat.sub amount target_amount)) tolerance.

(** Lines 179-183. *)
Definition matches_of (target_amount tolerance : float)
  (significant_transfers : list Transfer) : list Transfer :=
  filter (within_tolerance target_amount tolerance) significant_transfers.

(** Line 186. *)
Definition best_match_of (matches : list Transfer) : option Transfer :=
  max_by (fun x => PrimFloat.abs (t_change x)) matches.

(** Lines 190-191: the test of the counterparty loop. *)
Definition offsets (best_match t : Transfer) : bool :=
  negb (String.eqb (account t) (account best_match))
  && PrimFloat.ltb (PrimFloat.abs (PrimFloat.add (t_change t) (t_change best_match)))
                   (min_amount_threshold (client self)).

(** Lines 188-193: first hit, then [break]. *)
Definition counterparty_of (best_match : Transfer)
  (significant_transfers : list Transfer) : option Transfer :=
  find (offsets best_match) significant_transfers.

(** Lines 197-198: [a if c else b if counterparty else None]. *)
Definition sender_of (best_match : Transfer) (counterparty : option Transfer)
  : option string :=
  if PrimFloat.ltb (t_change best_match) 0 then Some (account best_match)
  else match counterparty with
       | Some c => Some (account c)
       | None => None
       end.

Definition receiver_of (best_match : Transfer) (counterparty : option Transfer)
  : option string :=
  if PrimFloat.ltb 0 (t_change best_match) then Some (account best_match)
  else match counterparty with
       | Some c => Some (account c)
       | None => None
       end.

(** [not xs] for a value that is a list or [None]. *)
Definition falsy {A : Type} (xs : option (list A)) : bool :=
  match xs with
  | Some (_ :: _) => false
  | _ => true
  end.

(** [xs] once [not xs] has been ruled out. *)
Definition elems {A : Type} (xs : option (list A)) : list A :=
  match xs with
  | Some l => l
  | None => []
  end.

(** Lines 149-150. *)
Definition meta_of (tx : Tx) : option Meta := get (meta tx) (Some empty_meta).

Definition message_of (tx : Tx) : res (option Message) :=
  if contains (transaction tx)
  then on_dict (get (transaction tx) None)
               (fun body => get (b_message body) (Some empty_message))
  else Ok (get (message tx) (Some empty_message)).

(** Lines 161-163. *)
Definition account_keys_of (message : option Message) : res (option (list string)) :=
  probe <- on_dict message (fun m => get (accountKeys m) None) ;;
  match probe with
  | Some _ => on_dict message (fun m => get (accountKeys m) (Some []))
  | None => on_dict message (fun m => get (accounts m) (Some []))
  end.

(** Lines 149-168: everything up to the balance-change dictionary.
    [Ok None] is one of the early [return None]; [Raise] an exception. *)
Definition parse_prelude (tx : Tx)
  : res (option (option Meta * dict BalanceChange)) :=
  let meta := meta_of tx in
  message <- message_of tx ;;
  e <- on_dict meta (fun m => get (err m) None) ;;
  match e with
  | Some _ => Ok None
  | None =>
      pre_balances <- on_dict meta (fun m => get (preBalances m) (Some [])) ;;
      post_balances <- on_dict meta (fun m => get (postBalances m) (Some [])) ;;
      if falsy pre_balances || falsy post_balances then Ok None
      else
        account_keys <- account_keys_of message ;;
        if falsy account_keys then Ok None
        else
          balance_changes <-
            _analyze_balance_changes self (elems pre_balances)
              (elems post_balances) (elems account_keys) ;;
          Ok (Some (meta, balance_changes))
  end.

(** Lines 195-202, the [result] dictionary; [meta.get("fee", 0) / 1e9] is
    the only entry that can raise. *)
Definition build_result (meta : option Meta)
  (balance_changes : dict BalanceChange)
  (best_match : Transfer) (counterparty : option Transfer) : res Parsed :=
  fee_raw <- on_dict meta (fun m => get (m_fee m) (Some 0%Z)) ;;
  fee <- div_1e9_opt fee_raw ;;
  Ok {| p_amount := PrimFloat.abs (t_change best_match);
        p_sender := sender_of best_match counterparty;
        p_receiver := receiver_of best_match counterparty;
        p_fee := fee;
        p_balance_changes := balance_changes |}.

(** Lines 170-202: candidates, matches, best match, counterparty, result.
    [Ok None] is falling off the end of the [try] block. *)
Definition parse_match (meta : option Meta) (balance_changes : dict BalanceChange)
  (target_amount tolerance : float) : res (option Parsed) :=
  let significant_transfers := significant_transfers_of balance_changes in
  let matches := matches_of target_amount tolerance significant_transfers in
  match best_match_of matches with
  | Some best_match =>
      let counterparty := counterparty_of best_match significant_transfers in
      r <- build_result meta balance_changes best_match counterparty ;;
      Ok (Some r)
  | None => Ok None
  end.

(** The body of the [try] block. *)
Definition parse_try (tx : Tx) (target_amount tolerance : float)
  : res (option Parsed) :=
  st <- parse_prelude tx ;;
  match st with
  | Some (meta, balance_changes) =>
      parse_match meta balance_changes target_amount tolerance
  | None => Ok None
  end.

(** [except Exception]: log and fall through to [return None]. *)
Definition _parse_transaction (tx : Tx) (target_amount tolerance : float)
  : option Parsed :=
  match parse_try tx target_amount tolerance with
  | Ok r => r
  | Raise _ => None
  end.
End Parse.

(** ** SolanaRPCClient

    The endpoint is the environment.  Its answers follow the JSON-RPC schema
    of the four methods used: [getSlot] yields an integer, [getBlocks] a list
    of slots, [getBlockTime] an integer or [null], [getBlock] a block object
    or [null]; in each envelope the [result] member may be absent. *)

Inductive Request : Set :=
| GetSlot
| GetBlocks (first last : Z)
| GetBlockTime (slot : Z)
| GetBlock (slot : Z).

(** One [session.post] followed by [response.json()]. *)
Inductive Attempt (A : Type) : Type :=
| Status200 (body : A)
| StatusOther (code : Z)
| Failed.

Arguments Status200 {A} body.
Arguments StatusOther {A} code.
Arguments Failed {A}.

(** The decoded envelope: the [result] and [error] members, when present. *)
Record Response (A : Type) := {
  result : option A;
  error : option string
}.

Arguments result {A} r.
Arguments error {A} r.

(** A block object; [transactions] may be absent. *)
Record Block := {
  transactions : option (list Tx)
}.

(** What the endpoint answers to the [attempt]-th post of the request with
    the given [id]. *)
Record Endpoint := {
  post_getSlot : nat -> nat -> Attempt (Response Z);
  post_getBlocks : Z -> Z -> nat -> nat -> Attempt (Response (list Z));
  post_getBlockTime : Z -> nat -> nat -> Attempt (Response (option Z));
  post_getBlock : Z -> nat -> nat -> Attempt (Response (option Block))
}.

(** The mutable part of the client: [request_counter], and a history of the
    requests made, kept for the statements about which calls are issued. *)
Record ClientState := {
  request_counter : nat;
  history : list Request
}.

Definition M (A : Type) : Type := ClientState -> A * ClientState.

Section Client.
Variable endpoint : Endpoint.

(** [for attempt in range(3)]: the first answer with status 200 wins. *)
Fixpoint try_post {A : Type} (post : nat -> Attempt A) (attempts : list nat)
  : option A :=
  match attempts with
  | [] => None
  | attempt :: rest =>
      match post attempt with
      | Status200 body => Some body
      | StatusOther _ => try_post post rest
      | Failed => try_post post rest
      end
  end.

Definition _make_rpc_request {A : Type}
  (post : nat -> nat -> Attempt (Response A)) (request : Request)
  : M (option (Response A)) :=
  fun st =>
    let id := S (request_counter st) in
    (try_post (post id) (seq 0 3),
     {| request_counter := id; history := history st ++ [request] |}).

(** Truth value of a response: [None] and the empty dictionary are false. *)
Definition truthy {A : Type} (response : option (Response A)) : bool :=
  match response with
  | Some r =>
      match result r, error r with
      | None, None => false
      | _, _ => true
      end
  | None => false
  end.

(** [response["result"]] when ["result" in response]. *)
Definition result_of {A : Type} (response : option (Response A)) : option A :=
  match response with
  | Some r => result r
  | None => None
  end.

Definition get_latest_block : M Z :=
  fun st =>
    let '(response, st1) := _make_rpc_request (post_getSlot endpoint) GetSlot st in
    (if truthy response
     then match result_of response with Some slot => slot | None => 0%Z end
     else 0%Z,
     st1).

Definition get_block_time (slot : Z) : M (option Z) :=
  fun st =>
    let '(response, st1) :=
      _make_rpc_request (post_getBlockTime endpoint slot) (GetBlockTime slot) st in
    (if truthy response
     then match result_of response with Some t => t | None => None end
     else None,
     st1).

(** [if block_time:] is false for [None] and for [0]. *)
Definition time_truthy (block_time : option Z) : bool :=
  match block_time with
  | Some t => negb (t =? 0)%Z
  | None => false
  end.

(** Lines 86-90. *)
Fixpoint collect_blocks (slots : list Z) (blocks : list (Z * Z))
  : M (list (Z * Z)) :=
  fun st =>
    match slots with
    | [] => (blocks, st)
    | slot :: rest =>
        let '(block_time, st1) := get_block_time slot st in
        match block_time with
        | Some t =>
            if time_truthy block_time
            then collect_blocks rest (blocks ++ [(slot, t)]) st1
            else collect_blocks rest blocks st1
        | None => collect_blocks rest blocks st1
        end
    end.

Definition get_recent_blocks (limit : Z) : M (list (Z * Z)) :=
  fun st =>
    let '(latest_block, st1) := get_latest_block st in
    let '(response, st2) :=
      _make_rpc_request
        (post_getBlocks endpoint (latest_block - limit) latest_block)
        (GetBlocks (latest_block - limit) latest_block) st1 in
    if negb (truthy response) then ([], st2)
    else
      match result_of response with
      | None => ([], st2)
      | Some slots =>
          let '(blocks, st3) := collect_blocks slots [] st2 in
          (sorted_reverse blocks, st3)
      end.

(** [response["result"].get("transactions", [])]: a [null] result has no
    [get]. *)
Definition get_block_transactions (slot : Z) : M (res (list Tx)) :=
  fun st =>
    let '(response, st1) :=
      _make_rpc_request (post_getBlock endpoint slot) (GetBlock slot) st in
    (if truthy response
     then match result_of response with
          | Some (Some block) =>
              Ok match transactions block with Some txs => txs | None => [] end
          | Some None => Raise AttributeError
          | None => Ok []
          end
     else Ok [],
     st1).

(** ** TransactionScanner.scan_for_amount *)

Variable self : TransactionScanner.

(** Line 229: [tx.get("transaction", {}).get("signatures", [""])[0]]. *)
Definition tx_hash_of (tx : Tx) : res string :=
  sigs <- on_dict (get (transaction tx) (Some empty_body))
                  (fun body => get (signatures body) (Some [EmptyString])) ;;
  match sigs with
  | None => Raise TypeError
  | Some [] => Raise IndexError
  | Some (s :: _) => Ok s
  end.

(** Lines 225-237: the transactions of one block. *)
Fixpoint scan_transactions (amount_in_sol tolerance : float)
  (slot block_time : Z) (txs : list Tx) (matches : list Transaction)
  : res (list Transaction) :=
  match txs with
  | [] => Ok matches
  | tx :: rest =>
      match _parse_transaction self tx amount_in_sol tolerance with
      | Some transfer =>
          h <- tx_hash_of tx ;;
          scan_transactions amount_in_sol tolerance slot block_time rest
            (matches ++
             [{| tx_hash := h;
                 amount := p_amount transfer;
                 block_height := slot;
                 block_time := block_time;
                 sender := p_sender transfer;
                 receiver := p_receiver transfer;
                 fee := p_fee transfer;
                 balance_changes := p_balance_changes transfer |}])
      | None =>
          scan_transactions amount_in_sol tolerance slot block_time rest matches
      end
  end.

(** Lines 218-237: the blocks, in the order given. *)
Fixpoint scan_blocks (amount_in_sol tolerance : float)
  (blocks : list (Z * Z)) (matches : list Transaction)
  : M (res (list Transaction)) :=
  fun st =>
    match blocks with
    | [] => (Ok matches, st)
    | (slot, block_time) :: rest =>
        let '(transactions, st1) := get_block_transactions slot st in
        match transactions with
        | Raise e => (Raise e, st1)
        | Ok txs =>
            match scan_transactions amount_in_sol tolerance slot block_time
                    txs matches with
            | Raise e => (Raise e, st1)
            | Ok matches' => scan_blocks amount_in_sol tolerance rest matches' st1
            end
        end
    end.

Definition scan_for_amount (amount_in_sol : float) (block_limit : Z)
  (tolerance : float) : M (res (list Transaction)) :=
  fun st =>
    let '(blocks, st1) := get_recent_blocks block_limit st in
    match blocks with
    | [] => (Ok [], st1)
    | _ :: _ => scan_blocks amount_in_sol tolerance blocks [] st1
    end.
End Client.

End Model.

Import Model.

(* ------------------------------------------------------------------------- *)
(** * Vocabulary of the statements *)

(** ** Binary64 comparisons

    A float that is not a NaN is ranked by a triple of integers whose
    lexicographic order is the order of the comparison operators. *)

Module FloatOrder.

Definition rank (x : spec_float) : Z * Z * Z :=
  match x with
  | S754_nan => (0, 0, 0)
  | S754_zero _ => (0, 0, 0)
  | S754_infinity true => (-2, 0, 0)
  | S754_infinity false => (2, 0, 0)
  | S754_finite true m e => (-1, - e, - Zpos m)
  | S754_finite false m e => (1, e, Zpos m)
  end%Z.

Definition lex_lt (a b : Z * Z * Z) : Prop :=
  let '(a1, a2, a3) := a in
  let '(b1, b2, b3) := b in
  (a1 < b1 \/ (a1 = b1 /\ (a2 < b2 \/ (a2 = b2 /\ a3 < b3))))%Z.

Definition is_nan (x : spec_float) : bool :=
  match x with
  | S754_nan => true
  | _ => false
  end.

(** [x] is an ordinary number or an infinity. *)
Definition number (x : float) : Prop := is_nan (Prim2SF x) = false.

Definition frank (x : float) : Z * Z * Z := rank (Prim2SF x).

(** The rational number that a finite float stands for. *)
Definition exact (x : float) : Q :=
  match Prim2SF x with
  | S754_finite s m e =>
      Qmult (inject_Z (if s then Zneg m else Zpos m)) (Qpower (inject_Z 2) e)
  | _ => inject_Z 0
  end.

End FloatOrder.

Import FloatOrder.

(** [x] occurs before [y] in [l]. *)
Definition precedes {A : Type} (l : list A) (x y : A) : Prop :=
  exists l1 l2 l3, l = l1 ++ x :: l2 ++ y :: l3.

(** ** The balance-delta extractor *)

Section ExtractorVocabulary.
Variable self : TransactionScanner.
Variables (pre_balances post_balances : list Z) (account_keys : list string).

(** Index [i] is within the three sequences, carries key [k], and its
    change [e] passes the threshold test. *)
Definition qualifies (i : nat) (k : string) (e : BalanceChange) : Prop :=
  (i < List.length pre_balances)%nat /\
  (i < List.length post_balances)%nat /\
  nth_error account_keys i = Some k /\
  entry_at pre_balances post_balances i = Ok e /\
  significant self (change e) = true.

(** What the dictionary holds once the indices below [a] are done: for each
    key, the entry of the last qualifying index that carries it. *)
Definition holds_last (a : nat) (changes : dict BalanceChange) : Prop :=
  forall k e,
    dict_lookup k changes = Some e <->
    exists i, (i < a)%nat /\ qualifies i k e /\
              forall j e', (i < j < a)%nat -> ~ qualifies j k e'.

(** [i] is the first index at which the key [k] qualifies. *)
Definition first_qualifying (k : string) (i : nat) : Prop :=
  (exists e, qualifies i k e) /\
  forall j e, (j < i)%nat -> ~ qualifies j k e.

(** The keys of the dictionary once the indices below [a] are done: the keys
    that qualified, in the order of their first qualifying index. *)
Definition keeps_order (a : nat) (changes : dict BalanceChange) : Prop :=
  (forall j k e, (j < a)%nat -> qualifies j k e -> In k (keys changes)) /\
  (forall k, In k (keys changes) -> exists i, (i < a)%nat /\ first_qualifying k i) /\
  (forall k1 k2,
     precedes (keys changes) k1 k2 ->
     exists i1 i2, (i1 < i2)%nat /\ first_qualifying k1 i1 /\ first_qualifying k2 i2).

(** Every index that the loop does not skip has balances that convert to
    [float]. *)
Definition convertible : Prop :=
  forall i,
    (i < List.length pre_balances)%nat ->
    (i < List.length post_balances)%nat ->
    (i < List.length account_keys)%nat ->
    exists e, entry_at pre_balances post_balances i = Ok e.
End ExtractorVocabulary.

(** ** The matcher *)

(** The three sequences that [_parse_transaction] hands to the extractor. *)
Definition pre_balances_of (tx : Tx) : list Z :=
  match meta_of tx with
  | Some m => elems (get (preBalances m) (Some []))
  | None => []
  end.

Definition post_balances_of (tx : Tx) : list Z :=
  match meta_of tx with
  | Some m => elems (get (postBalances m) (Some []))
  | None => []
  end.

Definition account_keys_list (tx : Tx) : list string :=
  match message_of tx with
  | Ok message =>
      match account_keys_of message with
      | Ok keys => elems keys
      | Raise _ => []
      end
  | Raise _ => []
  end.

(** [meta.get("fee", 0) / 1e9] evaluates to [fee]. *)
Definition fee_is (meta : option Meta) (fee : float) : Prop :=
  exists raw,
    on_dict meta (fun m => get (m_fee m) (Some 0%Z)) = Ok raw /\
    div_1e9_opt raw = Ok fee.

(** The reasons for which step 1 of the matcher rejects a transaction. *)
Definition has_error_status (tx : Tx) : Prop :=
  exists m e, meta tx = Val m /\ err m = Val e.

Definition empty_pre_balances (tx : Tx) : Prop :=
  exists m, meta_of tx = Some m /\ falsy (get (preBalances m) (Some [])) = true.

Definition empty_post_balances (tx : Tx) : Prop :=
  exists m, meta_of tx = Some m /\ falsy (get (postBalances m) (Some [])) = true.

Definition empty_account_keys (tx : Tx) : Prop :=
  exists message keys,
    message_of tx = Ok message /\
    account_keys_of message = Ok keys /\
    falsy keys = true.

(** ** The window resolver *)

Section ResolverVocabulary.
Variable endpoint : Endpoint.

(** The answer decoded by the request numbered [id]. *)
Definition answer {A : Type} (post : nat -> nat -> Attempt (Response A)) (id : nat)
  : option (Response A) :=
  try_post (post id) (seq 0 3).

(** What [get_block_time slot] returns when it is the request numbered [id]. *)
Definition block_time_at (id : nat) (slot : Z) : option Z :=
  let response := answer (post_getBlockTime endpoint slot) id in
  if truthy response
  then match result_of response with Some t => t | None => None end
  else None.

(** The slots returned by the range query numbered [id], if it has a result. *)
Definition slots_at (first last : Z) (id : nat) : option (list Z) :=
  let response := answer (post_getBlocks endpoint first last) id in
  if truthy response then result_of response else None.

(** The latest slot as [get_latest_block] reports it for request [id]. *)
Definition latest_at (id : nat) : Z :=
  let response := answer (post_getSlot endpoint) id in
  if truthy response
  then match result_of response with Some slot => slot | None => 0%Z end
  else 0%Z.

(** The pairs that the loop of [get_recent_blocks] appends when it visits
    [slots] and the first [getBlockTime] request is numbered [id]. *)
Fixpoint kept (id : nat) (slots : list Z) : list (Z * Z) :=
  match slots with
  | [] => []
  | slot :: rest =>
      match block_time_at id slot with
      | Some t => if (t =? 0)%Z then kept (S id) rest else (slot, t) :: kept (S id) rest
      | None => kept (S id) rest
      end
  end.
End ResolverVocabulary.

(** The state after the further requests [rs]. *)
Definition after (st : ClientState) (rs : list Request) : ClientState :=
  {| request_counter := List.length rs + request_counter st;
     history := history st ++ rs |}.

(** Descending by slot. *)
Definition slot_ge (a b : Z * Z) : Prop := (fst b <= fst a)%Z.

(** Descending as tuples: [b] is not larger than [a]. *)
Definition tuple_ge (a b : Z * Z) : Prop := pair_ltb a b = false.

(* ------------------------------------------------------------------------- *)
(** * Concrete inputs

    The transactions and endpoints at which the statements below are
    evaluated. *)

Module Fixtures.

Definition scanner (threshold : float) : TransactionScanner :=
  {| client := {| rpc_url := "https://api.mainnet-beta.solana.com"%string;
                  min_amount_threshold := threshold |} |}.

(** A successful transaction in the shape [getBlock] returns. *)
Definition transfer_tx (pre post : list Z) (keys sigs : list string) : Tx :=
  {| meta := Val {| err := Null;
                    m_fee := Val 5000%Z;
                    preBalances := Val pre;
                    postBalances := Val post |};
     transaction := Val {| b_message := Val {| accountKeys := Val keys;
                                               accounts := Missing |};
                           signatures := Val sigs |};
     message := Missing |}.

(** The same transaction with an error status. *)
Definition failed_tx (pre post : list Z) (keys sigs : list string) : Tx :=
  {| meta := Val {| err := Val "InstructionError"%string;
                    m_fee := Val 5000%Z;
                    preBalances := Val pre;
                    postBalances := Val post |};
     transaction := Val {| b_message := Val {| accountKeys := Val keys;
                                               accounts := Missing |};
                           signatures := Val sigs |};
     message := Missing |}.

(** A sends 5 SOL, B receives 5.0002 SOL (section 8 of the specification). *)
Definition pay_pre : list Z := [10000000000; 0]%Z.
Definition pay_post : list Z := [5000000000; 5000200000]%Z.
Definition pay_keys : list string := ["A"; "B"]%string.
Definition pay_tx : Tx := transfer_tx pay_pre pay_post pay_keys ["sig1"%string].

(** What lines 149-168 compute for it. *)
Definition pay_meta : option Meta :=
  Some {| err := Null; m_fee := Val 5000%Z;
          preBalances := Val pay_pre; postBalances := Val pay_post |}.
Definition pay_changes : dict BalanceChange :=
  [("A"%string, {| pre_balance := 10; post_balance := 5; change := -5 |});
   ("B"%string, {| pre_balance := 0;
                   post_balance := PrimFloat.div 5000200000 1e9;
                   change := PrimFloat.div 5000200000 1e9 |})].

(** Its best match for a target of 5 SOL. *)
Definition pay_best : Transfer :=
  {| account := "B";
     t_change := PrimFloat.div 5000200000 1e9;
     details := {| pre_balance := 0;
                   post_balance := PrimFloat.div 5000200000 1e9;
                   change := PrimFloat.div 5000200000 1e9 |} |}.

(** The same payment with an empty list of signatures. *)
Definition unsigned_tx : Tx := transfer_tx pay_pre pay_post pay_keys [].

(** One account appearing twice in the account keys. *)
Definition twice_keys : list string := ["A"; "A"]%string.
Definition twice_pre : list Z := [0; 0]%Z.
Definition twice_post : list Z := [2000000000; 0]%Z.
Definition twice_post_both : list Z := [2000000000; 3000000000]%Z.

(** An account going from 0.1 SOL to 0.4 SOL. *)
Definition tenth_tx : Tx :=
  transfer_tx [100000000]%Z [400000000]%Z ["A"%string] ["sig2"%string].

(** An account going from 0 to 3 SOL, and a target and a tolerance chosen so
    that [3 - target] lies just above the tolerance and rounds down to it. *)
Definition three_tx : Tx :=
  transfer_tx [0]%Z [3000000000]%Z ["A"%string] ["sig3"%string].
Definition tiny_target : float := PrimFloat.sub (Z.ldexp 1 (-51)) (Z.ldexp 1 (-80)).
Definition wide_tolerance : float := PrimFloat.sub 3 (Z.ldexp 1 (-51)).

(** A sends 5 SOL and B receives 5.5 SOL: the two changes add up to 0.5. *)
Definition edge_tx : Tx :=
  transfer_tx [10000000000; 0]%Z [5000000000; 5500000000]%Z ["A"; "B"]%string
    ["sig4"%string].

Definition reply {A : Type} (a : A) : Attempt (Response A) :=
  Status200 {| result := Some a; error := None |}.

(** An endpoint at slot 100 whose range query returns that one slot, with the
    given block time and transactions. *)
Definition one_block (time : option Z) (txs : list Tx) : Endpoint :=
  {| post_getSlot := fun _ _ => reply 100%Z;
     post_getBlocks := fun _ _ _ _ => reply [100%Z];
     post_getBlockTime := fun _ _ _ => reply time;
     post_getBlock := fun _ _ _ => reply (Some {| transactions := Some txs |}) |}.

(** An endpoint that never answers. *)
Definition unreachable : Endpoint :=
  {| post_getSlot := fun _ _ => Failed;
     post_getBlocks := fun _ _ _ _ => Failed;
     post_getBlockTime := fun _ _ _ => Failed;
     post_getBlock := fun _ _ _ => Failed |}.

(** An endpoint whose [getSlot] fails while the other methods answer: the
    range query returns slot 0, which has no block time. *)
Definition slotless : Endpoint :=
  {| post_getSlot := fun _ _ => Failed;
     post_getBlocks := fun _ _ _ _ => reply [0%Z];
     post_getBlockTime := fun _ _ _ => reply None;
     post_getBlock := fun _ _ _ => reply None |}.

Definition fresh : ClientState := {| request_counter := 0; history := [] |}.

End Fixtures.

(* ------------------------------------------------------------------------- *)
(** * Further model: what one gateway call does besides returning

    [_make_rpc_request] (lines 49-71) sleeps and posts; the value it returns
    is [Model._make_rpc_request].  Durations are in milliseconds. *)

Module Gateway.

Inductive Effect : Set :=
| Sleep (milliseconds : Z)
| Post (id attempt : nat).

(** Lines 61-70: one turn of the loop posts; a status other than 200 goes
    straight to the next turn; an exception sleeps [1 * (attempt + 1)]
    seconds first, unless it is the last turn. *)
Fixpoint attempt_effects {A : Type} (id : nat) (post : nat -> Attempt A)
  (attempts : list nat) : list Effect :=
  match attempts with
  | [] => []
  | attempt :: rest =>
      Post id attempt ::
      match post attempt with
      | Status200 _ => []
      | StatusOther _ => attempt_effects id post rest
      | Failed =>
          (if (attempt <? 2)%nat
           then [Sleep (1000 * (1 * (Z.of_nat attempt + 1)))]
           else [])
          ++ attempt_effects id post rest
      end
  end.

(** Lines 50-52, then the loop: every tenth request waits 0.1 s first. *)
Definition request_effects {A : Type}
  (post : nat -> nat -> Attempt (Response A)) (st : ClientState) : list Effect :=
  let id := S (request_counter st) in
  (if (id mod 10 =? 0)%nat then [Sleep 100] else [])
  ++ attempt_effects id (post id) (seq 0 3).

(** The time slept, and the attempts posted, in a run of effects. *)
Fixpoint total_sleep (effects : list Effect) : Z :=
  match effects with
  | [] => 0
  | Sleep ms :: rest => ms + total_sleep rest
  | Post _ _ :: rest => total_sleep rest
  end%Z.

Fixpoint posted (effects : list Effect) : list nat :=
  match effects with
  | [] => []
  | Sleep _ :: rest => posted rest
  | Post _ attempt :: rest => attempt :: posted rest
  end.

(** The attempt answered with status 200 and a body. *)
Definition answered {A : Type} (post : nat -> Attempt A) (attempt : nat) : bool :=
  match post attempt with
  | Status200 _ => true
  | _ => false
  end.

(** The attempt ended in an exception. *)
Definition raised {A : Type} (post : nat -> Attempt A) (attempt : nat) : bool :=
  match post attempt with
  | Failed => true
  | _ => false
  end.

End Gateway.

(* ------------------------------------------------------------------------- *)
(** * Further vocabulary: the scan *)

(** The record built at lines 228-237 from a parsed transfer. *)
Definition report (slot time : Z) (h : string) (transfer : Parsed) : Transaction :=
  {| tx_hash := h;
     amount := p_amount transfer;
     block_height := slot;
     block_time := time;
     sender := p_sender transfer;
     receiver := p_receiver transfer;
     fee := p_fee transfer;
     balance_changes := p_balance_changes transfer |}.

(** What [get_block_transactions slot] returns when it is the request
    numbered [id]. *)
Definition block_at (endpoint : Endpoint) (id : nat) (slot : Z) : res (list Tx) :=
  let response := answer (post_getBlock endpoint slot) id in
  if truthy response
  then match result_of response with
       | Some (Some block) =>
           Ok match transactions block with Some txs => txs | None => [] end
       | Some None => Raise AttributeError
       | None => Ok []
       end
  else Ok [].

Section ScanVocabulary.
Variable self : TransactionScanner.
Variables (amount_in_sol tolerance : float).

(** [if transfer:] on line 227. *)
Definition accepted (tx : Tx) : bool :=
  match _parse_transaction self tx amount_in_sol tolerance with
  | Some _ => true
  | None => false
  end.

(** Line 229 evaluates for [tx]. *)
Definition hashed (tx : Tx) : Prop := exists h, tx_hash_of tx = Ok h.

(** [t] is the record appended for the transaction [tx] of the block
    [(slot, time)]. *)
Definition reports (slot time : Z) (tx : Tx) (t : Transaction) : Prop :=
  exists transfer h,
    _parse_transaction self tx amount_in_sol tolerance = Some transfer /\
    tx_hash_of tx = Ok h /\
    t = report slot time h transfer.

Variable endpoint : Endpoint.

(** [group] holds the records of one block whose [getBlock] request is
    numbered [id]: one for each accepted transaction, in the block's order. *)
Definition block_reports (numbered : nat * (Z * Z)) (group : list Transaction) : Prop :=
  let '(id, (slot, time)) := numbered in
  exists txs,
    block_at endpoint id slot = Ok txs /\
    Forall2 (reports slot time) (filter accepted txs) group.

(** The block is scanned to its end: it is fetched and line 229 evaluates for
    each of its accepted transactions. *)
Definition block_passes (id : nat) (block : Z * Z) : Prop :=
  exists txs,
    block_at endpoint id (fst block) = Ok txs /\
    Forall (fun tx => accepted tx = true -> hashed tx) txs.

(** The scan of the block stops with [e]: fetching it raises [e], or line 229
    raises [e] for its first accepted transaction without a usable
    signature list. *)
Definition block_fails (id : nat) (block : Z * Z) (e : exn) : Prop :=
  block_at endpoint id (fst block) = Raise e \/
  exists txs before tx rest,
    block_at endpoint id (fst block) = Ok txs /\
    txs = before ++ tx :: rest /\
    Forall (fun tx' => accepted tx' = true -> hashed tx') before /\
    accepted tx = true /\
    tx_hash_of tx = Raise e.
End ScanVocabulary.

(** The blocks with the numbers of their [getBlock] requests, the first of
    which is numbered [first]. *)
Definition numbered (first : nat) (blocks : list (Z * Z)) : list (nat * (Z * Z)) :=
  combine (seq first (List.length blocks)) blocks.

(** Descending by block height. *)
Definition height_ge (a b : Transaction) : Prop := (block_height b <= block_height a)%Z.

(** ** The answers to [getBlock] and the signature lists, by shape *)

(** The [getBlock] request numbered [id] is answered with a [null] result. *)
Definition null_block (endpoint : Endpoint) (id : nat) (slot : Z) : Prop :=
  exists r, answer (post_getBlock endpoint slot) id = Some r /\ result r = Some None.

(** The request is not answered, or is answered without a result, or with a
    block object whose [transactions] member is absent or the list [txs];
    [txs] is empty in all cases but the last. *)
Definition block_holds (endpoint : Endpoint) (id : nat) (slot : Z) (txs : list Tx) : Prop :=
  (answer (post_getBlock endpoint slot) id = None /\ txs = []) \/
  (exists r, answer (post_getBlock endpoint slot) id = Some r /\
             result r = None /\ txs = []) \/
  (exists r block,
     answer (post_getBlock endpoint slot) id = Some r /\
     result r = Some (Some block) /\
     txs = match transactions block with Some l => l | None => [] end).

(** The transaction has no [transaction] member, or no [signatures] member
    in it, or a list of signatures that is not empty. *)
Definition usable_signatures (tx : Tx) : Prop :=
  transaction tx = Missing \/
  exists body,
    transaction tx = Val body /\
    (signatures body = Missing \/ exists s rest, signatures body = Val (s :: rest)).

(** ["signatures": null]. *)
Definition null_signatures (tx : Tx) : Prop :=
  exists body, transaction tx = Val body /\ signatures body = Null.

(** ["signatures": []]. *)
Definition empty_signatures (tx : Tx) : Prop :=
  exists body, transaction tx = Val body /\ signatures body = Val [].

(** The block answered to request [id] holds transactions, and each one
    that the matcher accepts has usable signatures. *)
Definition clean_block (self : TransactionScanner) (amount_in_sol tolerance : float)
  (endpoint : Endpoint) (id : nat) (block : Z * Z) : Prop :=
  exists txs,
    block_holds endpoint id (fst block) txs /\
    forall tx, In tx txs ->
               _parse_transaction self tx amount_in_sol tolerance <> None ->
               usable_signatures tx.

(** An endpoint at slot 100 whose [getBlock] answers [null]. *)
Definition null_blocks : Endpoint :=
  {| post_getSlot := fun _ _ => Fixtures.reply 100%Z;
     post_getBlocks := fun _ _ _ _ => Fixtures.reply [100%Z];
     post_getBlockTime := fun _ _ _ => Fixtures.reply (Some 1700000000%Z);
     post_getBlock := fun _ _ _ => Fixtures.reply None |}.

(* ------------------------------------------------------------------------- *)
(** * Facts about binary64 comparisons *)

Module FloatFacts.

Lemma SFcompare_rank x y :
  is_nan x = false -> is_nan y = false ->
  exists c, SFcompare x y = Some c /\
    (c = Lt <-> lex_lt (rank x) (rank y)) /\
    (c = Gt <-> lex_lt (rank y) (rank x)) /\
    (c = Eq <-> rank x = rank y).
Proof.
  destruct x as [sx|sx| |sx mx ex], y as [sy|sy| |sy my ey];
    try discriminate; intros _ _; cbn [SFcompare];
    try (destruct sx); try (destruct sy); eexists; (split; [reflexivity|]);
    try change (Pos.compare_cont Eq mx my) with (Pos.compare mx my);
    try (destruct (Z.compare_spec ex ey));
    try (destruct (Pos.compare_spec mx my));
    cbv [lex_lt rank CompOpp];
    repeat split; intros; try discriminate; try lia; try congruence;
    try (match goal with H : (_, _, _) = (_, _, _) |- _ => inversion H; lia end).
Qed.

Lemma SFcompare_nan x y :
  is_nan x = true \/ is_nan y = true -> SFcompare x y = None.
Proof.
  destruct x as [sx|sx| |sx mx ex], y as [sy|sy| |sy my ey]; cbn;
    intros [H|H]; try discriminate; reflexivity.
Qed.

Lemma ltb_rank x y :
  PrimFloat.ltb x y = true <-> number x /\ number y /\ lex_lt (frank x) (frank y).
Proof.
  rewrite FloatAxioms.ltb_spec. unfold SFltb, number, frank.
  destruct (is_nan (Prim2SF x)) eqn:Nx; [|destruct (is_nan (Prim2SF y)) eqn:Ny].
  - rewrite SFcompare_nan by auto. split; [discriminate|intros (H & _); discriminate].
  - rewrite SFcompare_nan by auto. split; [discriminate|intros (_ & H & _); discriminate].
  - destruct (SFcompare_rank _ _ Nx Ny) as (c & -> & HL & _).
    destruct c; split; intros H; try discriminate; try tauto;
      destruct H as (_ & _ & H); apply HL in H; discriminate.
Qed.

Lemma eqb_rank x y :
  PrimFloat.eqb x y = true <-> number x /\ number y /\ frank x = frank y.
Proof.
  rewrite FloatAxioms.eqb_spec. unfold SFeqb, number, frank.
  destruct (is_nan (Prim2SF x)) eqn:Nx; [|destruct (is_nan (Prim2SF y)) eqn:Ny].
  - rewrite SFcompare_nan by auto. split; [discriminate|intros (H & _); discriminate].
  - rewrite SFcompare_nan by auto. split; [discriminate|intros (_ & H & _); discriminate].
  - destruct (SFcompare_rank _ _ Nx Ny) as (c & -> & _ & _ & HE).
    destruct c; split; intros H; try discriminate; try tauto;
      destruct H as (_ & _ & H); apply HE in H; discriminate.
Qed.

Lemma leb_rank x y :
  PrimFloat.leb x y = true <->
  number x /\ number y /\ (lex_lt (frank x) (frank y) \/ frank x = frank y).
Proof.
  rewrite FloatAxioms.leb_spec. unfold SFleb, number, frank.
  destruct (is_nan (Prim2SF x)) eqn:Nx; [|destruct (is_nan (Prim2SF y)) eqn:Ny].
  - rewrite SFcompare_nan by auto. split; [discriminate|intros (H & _); discriminate].
  - rewrite SFcompare_nan by auto. split; [discriminate|intros (_ & H & _); discriminate].
  - destruct (SFcompare_rank _ _ Nx Ny) as (c & -> & HL & _ & HE).
    destruct c; split; intros H; try discriminate; try tauto;
      destruct H as (_ & _ & [H|H]); [apply HL in H|apply HE in H]; discriminate.
Qed.

(** Trichotomy and transitivity of the ranks. *)
Lemma lex_total a b : lex_lt a b \/ a = b \/ lex_lt b a.
Proof.
  destruct a as [[a1 a2] a3], b as [[b1 b2] b3]; unfold lex_lt.
  destruct (Z.lt_trichotomy a1 b1) as [?|[?|?]];
    destruct (Z.lt_trichotomy a2 b2) as [?|[?|?]];
    destruct (Z.lt_trichotomy a3 b3) as [?|[?|?]]; subst; auto; try lia;
    right; right; lia.
Qed.

Lemma lex_trans a b c : lex_lt a b -> lex_lt b c -> lex_lt a c.
Proof.
  destruct a as [[a1 a2] a3], b as [[b1 b2] b3], c as [[c1 c2] c3].
  unfold lex_lt. lia.
Qed.

Lemma lex_irrefl a : ~ lex_lt a a.
Proof. destruct a as [[a1 a2] a3]. unfold lex_lt. lia. Qed.

Lemma ltb_trans x y z :
  PrimFloat.ltb x y = true -> PrimFloat.ltb y z = true -> PrimFloat.ltb x z = true.
Proof.
  rewrite !ltb_rank. intros (? & ? & ?) (? & ? & ?).
  repeat split; auto. eapply lex_trans; eauto.
Qed.

(** [x < y] and not [x < z]: then [z < y] when [z] is a number. *)
Lemma ltb_through x y z :
  number z -> PrimFloat.ltb x z = false -> PrimFloat.ltb x y = true ->
  PrimFloat.ltb z y = true.
Proof.
  intros Nz Hxz Hxy. apply ltb_rank in Hxy. destruct Hxy as (Nx & Ny & L).
  apply ltb_rank. repeat split; auto.
  destruct (lex_total (frank x) (frank z)) as [H|[H|H]].
  - assert (PrimFloat.ltb x z = true) by (apply ltb_rank; auto). congruence.
  - rewrite <- H. exact L.
  - eapply lex_trans; eauto.
Qed.


Lemma eqb_leb x y : PrimFloat.eqb x y = true -> PrimFloat.leb y x = true.
Proof.
  rewrite eqb_rank, leb_rank. intros (? & ? & ?). repeat split; auto.
Qed.

Lemma ltb_leb_false x y : PrimFloat.ltb x y = true -> PrimFloat.leb y x = false.
Proof.
  intros H. destruct (PrimFloat.leb y x) eqn:E; [|reflexivity].
  apply ltb_rank in H. apply leb_rank in E.
  destruct H as (_ & _ & H), E as (_ & _ & [E|E]).
  - exfalso. eapply lex_irrefl, lex_trans; eauto.
  - exfalso. rewrite E in H. eapply lex_irrefl; eauto.
Qed.

Lemma not_ltb_leb x y :
  number x -> number y -> PrimFloat.ltb x y = false -> PrimFloat.leb y x = true.
Proof.
  intros Nx Ny H. apply leb_rank. split; [exact Ny|]. split; [exact Nx|].
  destruct (lex_total (frank x) (frank y)) as [L|[L|L]]; auto.
  assert (PrimFloat.ltb x y = true) by (apply ltb_rank; auto). congruence.
Qed.

(** A NaN operand makes the tolerance test fail. *)
Lemma number_abs x : number (PrimFloat.abs x) <-> number x.
Proof.
  unfold number. rewrite FloatAxioms.abs_spec. destruct (Prim2SF x); cbn; tauto.
Qed.

Lemma number_sub_l x y : number (PrimFloat.sub x y) -> number x.
Proof.
  unfold number. rewrite FloatAxioms.sub_spec. unfold SF64sub.
  destruct (Prim2SF x); cbn; auto.
Qed.

Lemma leb_number_l x y : PrimFloat.leb x y = true -> number x.
Proof. rewrite leb_rank. tauto. Qed.

(** [abs] of a float that is at least zero has the rank of the float, and so
    has [abs] of its opposite. *)
Lemma frank_abs_nonneg x :
  PrimFloat.leb 0 x = true -> frank (PrimFloat.abs x) = frank x.
Proof.
  rewrite leb_rank. unfold frank, number. rewrite FloatAxioms.abs_spec.
  change (Prim2SF 0) with (S754_zero false).
  destruct (Prim2SF x) as [s|s| |s m e]; cbn; intros (_ & N & H); auto;
    destruct s; cbn in *; auto; try discriminate;
    destruct H as [H|H]; try (cbv [lex_lt] in H; lia); inversion H.
Qed.

Lemma frank_abs_opp x : frank (PrimFloat.abs (PrimFloat.opp x)) = frank (PrimFloat.abs x).
Proof.
  unfold frank. rewrite !FloatAxioms.abs_spec, FloatAxioms.opp_spec.
  destruct (Prim2SF x); reflexivity.
Qed.

Lemma leb_abs_self x :
  PrimFloat.leb 0 x = true -> PrimFloat.leb (PrimFloat.abs x) x = true.
Proof.
  intros H. pose proof (frank_abs_nonneg _ H) as R.
  apply leb_rank in H. destruct H as (_ & N & _).
  apply leb_rank. repeat split; auto. now apply number_abs.
Qed.

Lemma leb_abs_opp x :
  PrimFloat.leb 0 x = true -> PrimFloat.leb (PrimFloat.abs (PrimFloat.opp x)) x = true.
Proof.
  intros H. pose proof (frank_abs_nonneg _ H) as R.
  apply leb_rank in H. destruct H as (_ & N & _).
  apply leb_rank. repeat split; auto.
  - unfold number in *. rewrite FloatAxioms.abs_spec, FloatAxioms.opp_spec.
    destruct (Prim2SF x); cbn in *; auto.
  - right. rewrite frank_abs_opp. exact R.
Qed.

End FloatFacts.

(* ------------------------------------------------------------------------- *)
(** * Dictionaries *)

Module DictFacts.

Lemma lookup_set {V : Type} (k k' : string) (v : V) (d : dict V) :
  dict_lookup k (dict_set k' v d) =
  if String.eqb k' k then Some v else dict_lookup k d.
Proof.
  induction d as [|[k0 v0] d IH]; cbn.
  - destruct (String.eqb k' k); reflexivity.
  - destruct (String.eqb k0 k') eqn:E0; cbn.
    + apply String.eqb_eq in E0. subst k0.
      destruct (String.eqb k' k); reflexivity.
    + destruct (String.eqb k0 k) eqn:E1.
      * apply String.eqb_eq in E1. subst k0. rewrite String.eqb_sym, E0. reflexivity.
      * exact IH.
Qed.

Lemma keys_set {V : Type} (k : string) (v : V) (d : dict V) (x : string) :
  In x (keys (dict_set k v d)) <-> x = k \/ In x (keys d).
Proof.
  induction d as [|[k0 v0] d IH]; cbn.
  - intuition congruence.
  - destruct (String.eqb k0 k) eqn:E0; cbn.
    + apply String.eqb_eq in E0. subst k0. intuition congruence.
    + unfold keys in IH. rewrite IH. intuition congruence.
Qed.

Lemma keys_set_nodup {V : Type} (k : string) (v : V) (d : dict V) :
  NoDup (keys d) -> NoDup (keys (dict_set k v d)).
Proof.
  induction d as [|[k0 v0] d IH]; cbn; intros ND.
  - constructor; [intros []|constructor].
  - inversion ND as [|? ? Hnotin ND']; subst.
    destruct (String.eqb k0 k) eqn:E0; cbn.
    + constructor; assumption.
    + constructor; [|apply IH; assumption].
      intros Hin. apply (keys_set k v d k0) in Hin. destruct Hin as [->|Hin].
      * rewrite String.eqb_refl in E0. discriminate.
      * contradiction.
Qed.


Lemma in_lookup {V : Type} (k : string) (v : V) (d : dict V) :
  NoDup (keys d) -> In (k, v) d -> dict_lookup k d = Some v.
Proof.
  induction d as [|[k0 v0] d IH]; cbn; [intros _ []|].
  intros ND [H|H]; inversion ND as [|? ? Hnotin ND']; subst.
  - injection H as -> ->. rewrite String.eqb_refl. reflexivity.
  - destruct (String.eqb k0 k) eqn:E0; [|auto].
    apply String.eqb_eq in E0. subst k0.
    exfalso. apply Hnotin. unfold keys. change k with (fst (k, v)). apply in_map, H.
Qed.

Lemma in_keys_lookup {V : Type} (k : string) (d : dict V) :
  In k (keys d) <-> exists v, dict_lookup k d = Some v.
Proof.
  induction d as [|[k0 v0] d IH]; cbn.
  - split; [intros []|intros [? [=]]].
  - destruct (String.eqb k0 k) eqn:E0.
    + apply String.eqb_eq in E0. split; eauto.
    + apply String.eqb_neq in E0. unfold keys in IH. rewrite <- IH. tauto.
Qed.

End DictFacts.

(* ------------------------------------------------------------------------- *)
(** * The balance-delta extractor *)

Section Extractor.
Variable self : TransactionScanner.
Variables (pre_balances post_balances : list Z) (account_keys : list string).

Let Q := qualifies self pre_balances post_balances account_keys.
Let loop := analyze_loop self pre_balances post_balances account_keys.

Lemma holds_last_skip a k :
  (forall e, ~ Q a k e) ->
  forall e,
    (exists i, (i < a)%nat /\ Q i k e /\ forall j e', (i < j < a)%nat -> ~ Q j k e') <->
    (exists i, (i < S a)%nat /\ Q i k e /\ forall j e', (i < j < S a)%nat -> ~ Q j k e').
Proof.
  intros Hno e. split.
  - intros (i & Hi & Hq & Hlast). exists i. split; [lia|split; [assumption|]].
    intros j e' Hj. destruct (Nat.eq_dec j a) as [->|Hne]; [apply Hno|apply Hlast; lia].
  - intros (i & Hi & Hq & Hlast).
    destruct (Nat.eq_dec i a) as [->|Hne]; [destruct (Hno _ Hq)|].
    exists i. split; [lia|split; [assumption|]]. intros j e' Hj. apply Hlast. lia.
Qed.


Lemma loop_holds_last n : forall a changes changes',
  (a + n = List.length pre_balances)%nat ->
  NoDup (keys changes) ->
  holds_last self pre_balances post_balances account_keys a changes ->
  loop (seq a n) changes = Ok changes' ->
  NoDup (keys changes') /\
  holds_last self pre_balances post_balances account_keys (a + n) changes'.
Proof.
  induction n as [|n IH]; intros a changes changes' Hlen ND Hinv; cbn [seq].
  - cbn. intros [= <-]. rewrite Nat.add_0_r. auto.
  - unfold loop. cbn [analyze_loop]. fold loop.
    replace (a + S n)%nat with (S a + n)%nat by lia.
    destruct ((List.length post_balances <=? a)%nat || (List.length account_keys <=? a)%nat)
      eqn:Guard.
    + intros Hrun. apply (IH (S a) changes changes'); [lia|assumption| |assumption].
      intros k e. rewrite (Hinv k e). apply holds_last_skip.
      intros e0 (_ & Hpost & Hkey & _).
      apply orb_true_iff in Guard. destruct Guard as [G|G]; apply Nat.leb_le in G.
      * lia.
      * assert (nth_error account_keys a <> None) by congruence.
        apply nth_error_Some in H. lia.
    + apply orb_false_iff in Guard. destruct Guard as [G1 G2].
      apply Nat.leb_gt in G1, G2.
      destruct (entry_at pre_balances post_balances a) as [ea|ex] eqn:Ea; cbn [bind];
        [|discriminate].
      destruct (significant self (change ea)) eqn:Sig.
      * destruct (nth_error account_keys a) as [ka|] eqn:Ka;
          [|apply nth_error_None in Ka; lia].
        unfold item. rewrite Ka. cbn [bind]. intros Hrun.
        apply (IH (S a) (dict_set ka ea changes) changes');
          [lia|apply DictFacts.keys_set_nodup; assumption| |assumption].
        intros k e. rewrite DictFacts.lookup_set.
        destruct (String.eqb ka k) eqn:Ek.
        -- apply String.eqb_eq in Ek. subst k. split.
           ++ intros [= <-]. exists a. repeat split; try lia; try assumption.
           ++ intros (i & Hi & Hq & Hlast).
              assert (Qa : Q a ka ea) by (repeat split; try lia; assumption).
              destruct (Nat.eq_dec i a) as [->|Hne].
              ** destruct Hq as (_ & _ & _ & He & _). congruence.
              ** destruct (Hlast a ea); [lia|exact Qa].
        -- rewrite (Hinv k e). apply holds_last_skip.
           intros e0 (_ & _ & Hkey & _). apply String.eqb_neq in Ek. congruence.
      * intros Hrun. apply (IH (S a) changes changes'); [lia|assumption| |assumption].
        intros k e. rewrite (Hinv k e). apply holds_last_skip.
        intros e0 (_ & _ & _ & He & Hs). congruence.
Qed.

Lemma analyze_holds_last changes :
  _analyze_balance_changes self pre_balances post_balances account_keys = Ok changes ->
  NoDup (keys changes) /\
  forall k e,
    dict_lookup k changes = Some e <->
    exists i, Q i k e /\ forall j e', (i < j)%nat -> ~ Q j k e'.
Proof.
  intros Hrun.
  destruct (loop_holds_last (List.length pre_balances) 0 [] changes) as (ND & Hinv);
    [lia|constructor| |exact Hrun|].
  - intros k e. cbn. split; [discriminate|]. intros (i & Hi & _). lia.
  - split; [exact ND|]. intros k e. rewrite (Hinv k e). cbn. split.
    + intros (i & Hi & Hq & Hlast). exists i. split; [assumption|].
      intros j e' Hj Hqj. apply (Hlast j e'); [|assumption].
      destruct Hqj as (Hlt & _). lia.
    + intros (i & Hq & Hlast). exists i. split; [|split; [assumption|]].
      * destruct Hq as (Hlt & _). exact Hlt.
      * intros j e' Hj. apply Hlast. lia.
Qed.

(** The loop returns when the balances it reads convert. *)
Lemma loop_returns n : forall a changes,
  (a + n = List.length pre_balances)%nat ->
  convertible pre_balances post_balances account_keys ->
  exists changes', loop (seq a n) changes = Ok changes'.
Proof.
  induction n as [|n IH]; intros a changes Hlen Hconv; cbn [seq].
  - eexists. reflexivity.
  - unfold loop. cbn [analyze_loop]. fold loop.
    destruct ((List.length post_balances <=? a)%nat || (List.length account_keys <=? a)%nat)
      eqn:Guard; [apply IH; [lia|assumption]|].
    apply orb_false_iff in Guard. destruct Guard as [G1 G2].
    apply Nat.leb_gt in G1, G2.
    destruct (Hconv a) as (ea & Ea); [lia|lia|lia|]. rewrite Ea. cbn [bind].
    destruct (significant self (change ea)); [|apply IH; [lia|assumption]].
    destruct (nth_error account_keys a) as [ka|] eqn:Ka;
      [|apply nth_error_None in Ka; lia].
    unfold item. rewrite Ka. cbn [bind]. apply IH; [lia|assumption].
Qed.
End Extractor.

(* ------------------------------------------------------------------------- *)
(** * Order of the keys *)

Module OrderFacts.

Lemma precedes_cons {A : Type} (a : A) (l : list A) (x y : A) :
  precedes l x y -> precedes (a :: l) x y.
Proof.
  intros (l1 & l2 & l3 & ->). exists (a :: l1), l2, l3. reflexivity.
Qed.

Lemma precedes_head {A : Type} (x y : A) (l : list A) :
  In y l -> precedes (x :: l) x y.
Proof.
  intros H. apply in_split in H. destruct H as (m1 & m2 & ->).
  exists [], m1, m2. reflexivity.
Qed.

Lemma precedes_cons_inv {A : Type} (a : A) (l : list A) (x y : A) :
  precedes (a :: l) x y -> (a = x /\ In y l) \/ precedes l x y.
Proof.
  intros (l1 & l2 & l3 & H). destruct l1 as [|b l1]; cbn in H.
  - injection H as -> ->. left. split; [reflexivity|].
    apply in_or_app. right. left. reflexivity.
  - injection H as -> ->. right. exists l1, l2, l3. reflexivity.
Qed.

Lemma precedes_snoc_inv {A : Type} (l : list A) (z x y : A) :
  precedes (l ++ [z]) x y -> precedes l x y \/ (In x l /\ y = z).
Proof.
  induction l as [|a l IH]; cbn; intros H.
  - destruct H as (l1 & l2 & l3 & H). exfalso.
    apply (f_equal (@List.length A)) in H. 
    rewrite !length_app in H. cbn in H. rewrite length_app in H. cbn in H. lia.
  - apply precedes_cons_inv in H. destruct H as [(-> & Hin)|H].
    + apply in_app_or in Hin. destruct Hin as [Hin|[->|[]]].
      * left. apply precedes_head. exact Hin.
      * right. split; [left|]; reflexivity.
    + destruct (IH H) as [P|(Hin & ->)].
      * left. apply precedes_cons. exact P.
      * right. split; [right; exact Hin|reflexivity].
Qed.

Lemma precedes_map {A B : Type} (f : A -> B) (l : list A) (x y : A) :
  precedes l x y -> precedes (map f l) (f x) (f y).
Proof.
  intros (l1 & l2 & l3 & ->). exists (map f l1), (map f l2), (map f l3).
  rewrite map_app. cbn. rewrite map_app. reflexivity.
Qed.

Lemma precedes_filter {A : Type} (f : A -> bool) (l : list A) (x y : A) :
  precedes (filter f l) x y -> precedes l x y.
Proof.
  induction l as [|a l IH]; cbn; intros H.
  - destruct H as ([|? ?] & l2 & l3 & H); discriminate.
  - destruct (f a).
    + apply precedes_cons_inv in H. destruct H as [(-> & Hin)|H].
      * apply precedes_head. apply filter_In in Hin. tauto.
      * apply precedes_cons. auto.
    + apply precedes_cons. auto.
Qed.


Lemma keys_set_old {V : Type} (k : string) (v : V) (d : dict V) :
  In k (keys d) -> keys (dict_set k v d) = keys d.
Proof.
  induction d as [|[k0 v0] d IH]; cbn; [intros []|].
  destruct (String.eqb k0 k) eqn:E; cbn; [reflexivity|].
  intros [H|H]; [subst; rewrite String.eqb_refl in E; discriminate|].
  unfold keys in IH. rewrite IH by assumption. reflexivity.
Qed.

Lemma keys_set_new {V : Type} (k : string) (v : V) (d : dict V) :
  ~ In k (keys d) -> keys (dict_set k v d) = keys d ++ [k].
Proof.
  induction d as [|[k0 v0] d IH]; cbn; [reflexivity|]. intros H.
  destruct (String.eqb k0 k) eqn:E; cbn.
  - apply String.eqb_eq in E. tauto.
  - unfold keys in IH. rewrite IH by tauto. reflexivity.
Qed.

End OrderFacts.

Section ExtractorOrder.
Variable self : TransactionScanner.
Variables (pre_balances post_balances : list Z) (account_keys : list string).

Let Q := qualifies self pre_balances post_balances account_keys.
Let F := first_qualifying self pre_balances post_balances account_keys.
Let loop := analyze_loop self pre_balances post_balances account_keys.
Let Ord := keeps_order self pre_balances post_balances account_keys.

Lemma keeps_order_skip a changes :
  (forall k e, ~ Q a k e) -> Ord a changes -> Ord (S a) changes.
Proof.
  intros Hno (H0 & H1 & H2). split; [|split].
  - intros j k e Hj Hq. destruct (Nat.eq_dec j a) as [->|Hne].
    + destruct (Hno _ _ Hq).
    + apply (H0 j k e); [lia|exact Hq].
  - intros k Hin. destruct (H1 k Hin) as (i & Hi & Hf). exists i. split; [lia|exact Hf].
  - exact H2.
Qed.

Lemma keeps_order_set a ka ea changes :
  Q a ka ea -> Ord a changes -> Ord (S a) (dict_set ka ea changes).
Proof.
  intros Hq (H0 & H1 & H2).
  assert (New : ~ In ka (keys changes) -> F ka a).
  { intros Hnot. split; [exists ea; exact Hq|].
    intros j e Hj Hqj. apply Hnot. apply (H0 j ka e); assumption. }
  split; [|split].
  - intros j k e Hj Hqj. apply DictFacts.keys_set.
    destruct (Nat.eq_dec j a) as [->|Hne].
    + left. destruct Hq as (_ & _ & K1 & _), Hqj as (_ & _ & K2 & _). congruence.
    + right. apply (H0 j k e); [lia|exact Hqj].
  - intros k Hin. apply DictFacts.keys_set in Hin.
    destruct (in_dec string_dec ka (keys changes)) as [Hold|Hnew].
    + assert (Hk : In k (keys changes)) by (destruct Hin as [->|]; assumption).
      destruct (H1 k Hk) as (i & Hi & Hf). exists i. split; [lia|exact Hf].
    + destruct Hin as [->|Hk].
      * exists a. split; [lia|]. apply New. exact Hnew.
      * destruct (H1 k Hk) as (i & Hi & Hf). exists i. split; [lia|exact Hf].
  - intros k1 k2 P.
    destruct (in_dec string_dec ka (keys changes)) as [Hold|Hnew].
    + rewrite (OrderFacts.keys_set_old ka ea changes Hold) in P. apply H2. exact P.
    + rewrite (OrderFacts.keys_set_new ka ea changes Hnew) in P.
      apply OrderFacts.precedes_snoc_inv in P. destruct P as [P|(Hin & ->)].
      * apply H2. exact P.
      * destruct (H1 k1 Hin) as (i & Hi & Hf). exists i, a.
        split; [lia|]. split; [exact Hf|]. apply New. exact Hnew.
Qed.

Lemma loop_keeps_order n : forall a changes changes',
  (a + n = List.length pre_balances)%nat ->
  Ord a changes ->
  loop (seq a n) changes = Ok changes' ->
  Ord (a + n) changes'.
Proof.
  induction n as [|n IH]; intros a changes changes' Hlen Hinv; cbn [seq].
  - cbn. intros [= <-]. rewrite Nat.add_0_r. exact Hinv.
  - unfold loop. cbn [analyze_loop]. fold loop.
    replace (a + S n)%nat with (S a + n)%nat by lia.
    destruct ((List.length post_balances <=? a)%nat || (List.length account_keys <=? a)%nat)
      eqn:Guard.
    + intros Hrun. apply (IH (S a) changes changes'); [lia| |assumption].
      apply keeps_order_skip; [|exact Hinv].
      intros k e0 (_ & Hpost & Hkey & _).
      apply orb_true_iff in Guard. destruct Guard as [G|G]; apply Nat.leb_le in G.
      * lia.
      * assert (H : nth_error account_keys a <> None) by congruence.
        apply nth_error_Some in H. lia.
    + apply orb_false_iff in Guard. destruct Guard as [G1 G2].
      apply Nat.leb_gt in G1, G2.
      destruct (entry_at pre_balances post_balances a) as [ea|ex] eqn:Ea; cbn [bind];
        [|discriminate].
      destruct (significant self (change ea)) eqn:Sig.
      * destruct (nth_error account_keys a) as [ka|] eqn:Ka;
          [|apply nth_error_None in Ka; lia].
        unfold item. rewrite Ka. cbn [bind]. intros Hrun.
        apply (IH (S a) (dict_set ka ea changes) changes'); [lia| |assumption].
        apply keeps_order_set; [|exact Hinv].
        repeat split; try lia; assumption.
      * intros Hrun. apply (IH (S a) changes changes'); [lia| |assumption].
        apply keeps_order_skip; [|exact Hinv].
        intros k e0 (_ & _ & _ & He & Hs). congruence.
Qed.

Lemma analyze_keeps_order changes :
  _analyze_balance_changes self pre_balances post_balances account_keys = Ok changes ->
  forall k1 k2,
    precedes (keys changes) k1 k2 ->
    exists i1 i2, (i1 < i2)%nat /\ F k1 i1 /\ F k2 i2.
Proof.
  intros Hrun.
  destruct (loop_keeps_order (List.length pre_balances) 0 [] changes) as (_ & _ & H);
    [lia| |exact Hrun|exact H].
  split; [|split].
  - intros j k e Hj. lia.
  - intros k [].
  - intros k1 k2 (l1 & l2 & l3 & H). destruct l1; discriminate.
Qed.

(** Every entry of the dictionary passes the threshold test again, so the
    candidates are the entries, in order. *)
Lemma candidates_are_entries changes :
  _analyze_balance_changes self pre_balances post_balances account_keys = Ok changes ->
  map account (significant_transfers_of self changes) = keys changes.
Proof.
  intros Hrun.
  destruct (analyze_holds_last self pre_balances post_balances account_keys changes Hrun)
    as (ND & Hlook).
  assert (All : forall k e, In (k, e) changes -> significant self (change e) = true).
  { intros k e Hin. apply (DictFacts.in_lookup k e changes ND) in Hin.
    apply Hlook in Hin. destruct Hin as (i & (_ & _ & _ & _ & Hs) & _). exact Hs. }
  clear Hlook ND Hrun. induction changes as [|[k e] d IH]; [reflexivity|].
  change (significant_transfers_of self ((k, e) :: d))
    with ((if significant self (change e)
           then [{| account := k; t_change := change e; details := e |}]
           else []) ++ significant_transfers_of self d).
  rewrite (All k e) by (left; reflexivity). cbn. f_equal.
  apply IH. intros k' e' Hin. apply (All k' e'). right. exact Hin.
Qed.
End ExtractorOrder.

(* ------------------------------------------------------------------------- *)
(** * The matcher *)

Module MatcherFacts.

(** ** [max] with a key *)

Section MaxBy.
Variable A : Type.
Variable key : A -> float.

Lemma max_from_split (xs : list A) : forall (before : list A) (best : A) (mid : list A),
  Forall (fun t => number (key t)) xs ->
  number (key best) ->
  Forall (fun t => PrimFloat.ltb (key t) (key best) = true) before ->
  Forall (fun t => number (key t) /\ PrimFloat.ltb (key best) (key t) = false) mid ->
  exists before' after',
    before ++ best :: mid ++ xs = before' ++ max_from key best xs :: after' /\
    Forall (fun t => PrimFloat.ltb (key t) (key (max_from key best xs)) = true) before' /\
    Forall (fun t => PrimFloat.ltb (key (max_from key best xs)) (key t) = false) after'.
Proof.
  induction xs as [|x xs IH]; intros before best mid Nxs Nbest Hbefore Hmid; cbn.
  - exists before, mid. rewrite app_nil_r. repeat split; auto.
    eapply Forall_impl; [|exact Hmid]. cbn. tauto.
  - inversion Nxs as [|? ? Nx Nxs']; subst.
    destruct (PrimFloat.ltb (key best) (key x)) eqn:E.
    + destruct (IH (before ++ best :: mid) x [] Nxs' Nx) as (b' & a' & Heq & Hb & Ha).
      * apply Forall_app. split; [|constructor].
        -- eapply Forall_impl; [|exact Hbefore]. cbn. intros t Ht.
           eapply FloatFacts.ltb_trans; eauto.
        -- exact E.
        -- eapply Forall_impl; [|exact Hmid]. cbn. intros t (Nt & Ht).
           eapply FloatFacts.ltb_through; eauto.
      * constructor.
      * exists b', a'. split; [|auto]. rewrite <- Heq. cbn.
        rewrite <- app_assoc. reflexivity.
    + destruct (IH before best (mid ++ [x]) Nxs' Nbest Hbefore) as (b' & a' & Heq & Hb & Ha).
      * apply Forall_app. split; [exact Hmid|]. constructor; [auto|constructor].
      * exists b', a'. split; [|auto]. rewrite <- Heq.
        rewrite <- app_assoc. reflexivity.
Qed.

Lemma max_by_split (xs : list A) :
  xs <> [] ->
  Forall (fun t => number (key t)) xs ->
  exists best before after,
    max_by key xs = Some best /\
    xs = before ++ best :: after /\
    Forall (fun t => PrimFloat.ltb (key t) (key best) = true) before /\
    Forall (fun t => PrimFloat.ltb (key best) (key t) = false) after.
Proof.
  destruct xs as [|x xs]; [congruence|]. intros _ N.
  inversion N as [|? ? Nx Nxs]; subst.
  destruct (max_from_split xs [] x [] Nxs Nx) as (b & a & Heq & Hb & Ha);
    [constructor|constructor|].
  exists (max_from key x xs), b, a. cbn in *. auto.
Qed.
End MaxBy.

(** ** [find] returns the first hit *)

Lemma find_first {A : Type} (f : A -> bool) (l : list A) :
  match find f l with
  | Some x =>
      exists before after,
        l = before ++ x :: after /\ f x = true /\
        Forall (fun t => f t = false) before
  | None => Forall (fun t => f t = false) l
  end.
Proof.
  induction l as [|a l IH]; cbn; [constructor|].
  destruct (f a) eqn:E.
  - exists [], l. repeat split; auto.
  - destruct (find f l) as [x|].
    + destruct IH as (b & c & -> & Hx & Hb). exists (a :: b), c. repeat split; auto.
    + constructor; auto.
Qed.

(** ** The candidates and the matches *)

Lemma match_is_number (T tol : float) (t : Transfer) :
  within_tolerance T tol t = true -> number (PrimFloat.abs (t_change t)).
Proof.
  unfold within_tolerance. cbv zeta. intros H.
  apply FloatFacts.leb_number_l in H. apply (proj1 (FloatFacts.number_abs _)) in H.
  exact (FloatFacts.number_sub_l _ _ H).
Qed.

Lemma matches_are_numbers (T tol : float) (cands : list Transfer) :
  Forall (fun t => number (PrimFloat.abs (t_change t))) (matches_of T tol cands).
Proof.
  apply Forall_forall. intros t Hin. apply filter_In in Hin.
  destruct Hin as (_ & H). eapply match_is_number; eauto.
Qed.

(** ** The shape of [_parse_transaction] *)

Lemma parse_transaction_prelude self tx T tol meta bc :
  parse_prelude self tx = Ok (Some (meta, bc)) ->
  _parse_transaction self tx T tol =
  match best_match_of (matches_of T tol (significant_transfers_of self bc)) with
  | Some best =>
      match build_result meta bc best
              (counterparty_of self best (significant_transfers_of self bc)) with
      | Ok r => Some r
      | Raise _ => None
      end
  | None => None
  end.
Proof.
  intros H. unfold _parse_transaction, parse_try, parse_match. rewrite H. cbn [bind].
  destruct (best_match_of _); [|reflexivity].
  destruct (build_result _ _ _ _); reflexivity.
Qed.

Lemma build_result_fee meta bc best cp fee :
  fee_is meta fee ->
  build_result meta bc best cp =
  Ok {| p_amount := PrimFloat.abs (t_change best);
        p_sender := sender_of best cp;
        p_receiver := receiver_of best cp;
        p_fee := fee;
        p_balance_changes := bc |}.
Proof.
  intros (raw & H1 & H2). unfold build_result. rewrite H1. cbn [bind].
  rewrite H2. reflexivity.
Qed.

Lemma build_result_inv meta bc best cp r :
  build_result meta bc best cp = Ok r ->
  p_amount r = PrimFloat.abs (t_change best) /\
  p_sender r = sender_of best cp /\
  p_receiver r = receiver_of best cp /\
  p_balance_changes r = bc /\
  fee_is meta (p_fee r).
Proof.
  unfold build_result, fee_is.
  destruct (on_dict meta _) as [raw|] eqn:E1; cbn [bind]; [|discriminate].
  destruct (div_1e9_opt raw) as [fee|] eqn:E2; cbn [bind]; [|discriminate].
  intros [= <-]. cbn. repeat split; eauto.
Qed.

Lemma parse_prelude_inv self tx meta bc :
  parse_prelude self tx = Ok (Some (meta, bc)) ->
  meta = meta_of tx /\
  _analyze_balance_changes self (pre_balances_of tx) (post_balances_of tx)
    (account_keys_list tx) = Ok bc.
Proof.
  unfold parse_prelude, pre_balances_of, post_balances_of, account_keys_list.
  destruct (message_of tx) as [msg|]; cbn [bind]; [|discriminate].
  destruct (meta_of tx) as [m|]; cbn [on_dict bind]; [|discriminate].
  destruct (get (err m) None); [discriminate|]. cbn [bind].
  destruct (falsy _ || falsy _); [discriminate|].
  destruct (account_keys_of msg) as [ks|]; cbn [bind]; [|discriminate].
  destruct (falsy ks); [discriminate|].
  destruct (_analyze_balance_changes _ _ _ _) as [d|]; cbn [bind]; [|discriminate].
  intros [= <- <-]. auto.
Qed.

Lemma parse_some_prelude self tx T tol r :
  _parse_transaction self tx T tol = Some r ->
  exists meta, parse_prelude self tx = Ok (Some (meta, p_balance_changes r)).
Proof.
  intros H. destruct (parse_prelude self tx) as [[[meta bc]|]|] eqn:P.
  - rewrite (parse_transaction_prelude self tx T tol meta bc P) in H.
    destruct (best_match_of _) as [best|]; [|discriminate].
    destruct (build_result _ _ _ _) as [r'|] eqn:B; [|discriminate].
    injection H as <-. apply build_result_inv in B.
    destruct B as (_ & _ & _ & -> & _). exists meta. reflexivity.
  - unfold _parse_transaction, parse_try in H. rewrite P in H. discriminate.
  - unfold _parse_transaction, parse_try in H. rewrite P in H. discriminate.
Qed.

End MatcherFacts.

(* ------------------------------------------------------------------------- *)
(** * The gateway and the window resolver *)

Module ResolverFacts.

Section Resolver.
Variable endpoint : Endpoint.

Lemma make_rpc_request_eq {A : Type} (post : nat -> nat -> Attempt (Response A))
  (request : Request) (st : ClientState) :
  _make_rpc_request post request st =
  (answer post (S (request_counter st)), after st [request]).
Proof. reflexivity. Qed.

Lemma get_latest_block_eq (st : ClientState) :
  get_latest_block endpoint st =
  (latest_at endpoint (S (request_counter st)), after st [GetSlot]).
Proof. reflexivity. Qed.

Lemma get_block_time_eq (slot : Z) (st : ClientState) :
  get_block_time endpoint slot st =
  (block_time_at endpoint (S (request_counter st)) slot, after st [GetBlockTime slot]).
Proof. reflexivity. Qed.

Lemma after_after (st : ClientState) (rs rs' : list Request) :
  after (after st rs) rs' = after st (rs ++ rs').
Proof.
  unfold after. cbn. rewrite length_app, <- app_assoc. f_equal. lia.
Qed.

Lemma after_nil (st : ClientState) : after st [] = st.
Proof. destruct st. unfold after. cbn. rewrite app_nil_r. reflexivity. Qed.

Lemma collect_blocks_eq (slots : list Z) : forall (blocks : list (Z * Z)) (st : ClientState),
  collect_blocks endpoint slots blocks st =
  (blocks ++ kept endpoint (S (request_counter st)) slots,
   after st (map GetBlockTime slots)).
Proof.
  induction slots as [|slot rest IH]; intros blocks st.
  - cbn. rewrite app_nil_r, after_nil. reflexivity.
  - cbn [collect_blocks kept map]. rewrite get_block_time_eq.
    destruct (block_time_at endpoint (S (request_counter st)) slot) as [t|] eqn:E.
    + unfold time_truthy. destruct (t =? 0)%Z; cbn [negb]; rewrite IH, after_after.
      * reflexivity.
      * rewrite <- app_assoc. reflexivity.
    + rewrite IH, after_after. reflexivity.
Qed.

(** A pair is kept exactly when its slot was returned at some position and
    the block time fetched for that position is a non-zero integer. *)
Lemma in_kept (slots : list Z) : forall (id : nat) (slot t : Z),
  In (slot, t) (kept endpoint id slots) <->
  exists n, nth_error slots n = Some slot /\
            block_time_at endpoint (id + n) slot = Some t /\ t <> 0%Z.
Proof.
  induction slots as [|s rest IH]; intros id slot t; cbn [kept].
  - split; [intros []|]. intros ([|n] & H & _); discriminate.
  - assert (Tail :
      In (slot, t) (kept endpoint (S id) rest) <->
      exists n, nth_error (s :: rest) (S n) = Some slot /\
                block_time_at endpoint (id + S n) slot = Some t /\ t <> 0%Z).
    { rewrite IH. split; intros (n & H1 & H2 & H3); exists n; cbn in *;
        (split; [assumption|split; [|assumption]]);
        replace (id + S n)%nat with (S id + n)%nat in * by lia; assumption. }
    assert (Split :
      (exists n, nth_error (s :: rest) n = Some slot /\
                 block_time_at endpoint (id + n) slot = Some t /\ t <> 0%Z) <->
      (s = slot /\ block_time_at endpoint id slot = Some t /\ t <> 0%Z) \/
      In (slot, t) (kept endpoint (S id) rest)).
    { rewrite Tail. split.
      - intros ([|n] & H1 & H2 & H3).
        + left. cbn in H1. rewrite Nat.add_0_r in H2. injection H1 as ->. auto.
        + right. exists n. auto.
      - intros [(-> & H2 & H3)|(n & H)].
        + exists 0%nat. rewrite Nat.add_0_r. cbn. auto.
        + exists (S n). exact H. }
    rewrite Split.
    destruct (block_time_at endpoint id s) as [t0|] eqn:E.
    + destruct (t0 =? 0)%Z eqn:Z0.
      * apply Z.eqb_eq in Z0. subst t0. split; [auto|].
        intros [(-> & H2 & H3)|H]; [congruence|exact H].
      * apply Z.eqb_neq in Z0. cbn [In]. split.
        -- intros [H|H]; [injection H as -> ->; auto|auto].
        -- intros [(-> & H2 & H3)|H]; [left; congruence|auto].
    + split; [auto|]. intros [(-> & H2 & H3)|H]; [congruence|exact H].
Qed.

Lemma get_recent_blocks_eq (limit : Z) (st : ClientState) :
  let latest := latest_at endpoint (S (request_counter st)) in
  let range := GetBlocks (latest - limit) latest in
  get_recent_blocks endpoint limit st =
  match slots_at endpoint (latest - limit) latest (S (S (request_counter st))) with
  | None => ([], after st [GetSlot; range])
  | Some slots =>
      (sorted_reverse (kept endpoint (S (S (S (request_counter st)))) slots),
       after st ([GetSlot; range] ++ map GetBlockTime slots))
  end.
Proof.
  cbv zeta. unfold get_recent_blocks. rewrite get_latest_block_eq.
  rewrite make_rpc_request_eq, after_after. cbn [app].
  unfold slots_at. cbn [request_counter after List.length Nat.add].
  set (response := answer _ _).
  destruct (truthy response); cbn [negb]; [|reflexivity].
  destruct (result_of response) as [slots|]; [|reflexivity].
  rewrite collect_blocks_eq, after_after. reflexivity.
Qed.
End Resolver.

(** ** [sorted(..., reverse=True)] *)

Lemma insert_desc_perm (a : Z * Z) (l : list (Z * Z)) :
  Permutation (a :: l) (insert_desc a l).
Proof.
  induction l as [|b l IH]; cbn; [reflexivity|].
  destruct (pair_ltb a b); [|reflexivity].
  rewrite perm_swap. constructor. exact IH.
Qed.

Lemma sorted_reverse_perm (l : list (Z * Z)) : Permutation l (sorted_reverse l).
Proof.
  induction l as [|a l IH]; cbn; [constructor|].
  rewrite <- insert_desc_perm. constructor. exact IH.
Qed.

Lemma tuple_ge_trans a b c : tuple_ge a b -> tuple_ge b c -> tuple_ge a c.
Proof.
  unfold tuple_ge, pair_ltb. destruct a, b, c; cbn.
  rewrite !orb_false_iff, !andb_false_iff, !Z.ltb_ge, !Z.eqb_neq. lia.
Qed.

Lemma tuple_ge_total a b : pair_ltb a b = true -> tuple_ge b a.
Proof.
  unfold tuple_ge, pair_ltb. destruct a, b; cbn.
  rewrite orb_true_iff, andb_true_iff, Z.ltb_lt, Z.eqb_eq.
  rewrite !orb_false_iff, !andb_false_iff, !Z.ltb_ge, !Z.eqb_neq. lia.
Qed.

Lemma tuple_ge_slot a b : tuple_ge a b -> slot_ge a b.
Proof.
  unfold tuple_ge, slot_ge, pair_ltb. destruct a, b; cbn.
  rewrite !orb_false_iff, !Z.ltb_ge. lia.
Qed.

Lemma insert_desc_sorted (a : Z * Z) (l : list (Z * Z)) :
  StronglySorted tuple_ge l -> StronglySorted tuple_ge (insert_desc a l).
Proof.
  induction l as [|b l IH]; cbn; intros S.
  - constructor; constructor.
  - inversion S as [|? ? S' F]; subst.
    destruct (pair_ltb a b) eqn:E.
    + constructor; [auto|].
      rewrite <- insert_desc_perm. constructor; [|exact F].
      apply tuple_ge_total. exact E.
    + constructor; [exact S|]. constructor; [exact E|].
      eapply Forall_impl; [|exact F]. intros c. apply tuple_ge_trans. exact E.
Qed.

Lemma sorted_reverse_sorted (l : list (Z * Z)) :
  StronglySorted tuple_ge (sorted_reverse l).
Proof.
  induction l as [|a l IH]; cbn; [constructor|]. apply insert_desc_sorted, IH.
Qed.

Lemma sorted_reverse_descending (l : list (Z * Z)) :
  StronglySorted slot_ge (sorted_reverse l).
Proof.
  pose proof (sorted_reverse_sorted l) as S.
  induction S as [|a l' S IH F]; constructor; [exact IH|].
  eapply Forall_impl; [|exact F]. intros b. apply tuple_ge_slot.
Qed.

Lemma sorted_reverse_nil (l : list (Z * Z)) : sorted_reverse l = [] <-> l = [].
Proof.
  split; intros H.
  - apply Permutation_nil. rewrite <- H. symmetry. apply sorted_reverse_perm.
  - subst l. reflexivity.
Qed.

Lemma kept_nil (endpoint : Endpoint) (id : nat) (slots : list Z) :
  kept endpoint id slots = [] <->
  forall n slot t,
    nth_error slots n = Some slot ->
    block_time_at endpoint (id + n) slot = Some t -> t = 0%Z.
Proof.
  split.
  - intros H n slot t Hn Ht. destruct (Z.eq_dec t 0) as [|Hne]; [assumption|].
    assert (Hin : In (slot, t) (kept endpoint id slots)) by (apply in_kept; eauto).
    rewrite H in Hin. destruct Hin.
  - intros H. destruct (kept endpoint id slots) as [|[slot t] l] eqn:E; [reflexivity|].
    assert (Hin : In (slot, t) (kept endpoint id slots)) by (rewrite E; left; reflexivity).
    apply in_kept in Hin. destruct Hin as (n & Hn & Ht & Hne).
    destruct (Hne (H n slot t Hn Ht)).
Qed.

End ResolverFacts.

(* ------------------------------------------------------------------------- *)
(** * Balance-delta extractor: the statements *)

Import Fixtures.

Lemma entry_at_inv (pre post : list Z) (i : nat) (e : BalanceChange) :
  entry_at pre post i = Ok e ->
  exists p q,
    nth_error pre i = Some p /\ nth_error post i = Some q /\
    div_1e9 p = Ok (pre_balance e) /\ div_1e9 q = Ok (post_balance e) /\
    change e = PrimFloat.sub (post_balance e) (pre_balance e).
Proof.
  unfold entry_at, item.
  destruct (nth_error pre i) as [p|]; cbn [bind]; [|discriminate].
  destruct (div_1e9 p) as [x|] eqn:Ep; cbn [bind]; [|discriminate].
  destruct (nth_error post i) as [q|]; cbn [bind]; [|discriminate].
  destruct (div_1e9 q) as [y|] eqn:Eq; cbn [bind]; [|discriminate].
  intros [= <-]. exists p, q. cbn. auto.
Qed.

Lemma analyze_returns (self : TransactionScanner) (pre post : list Z) (keys : list string) :
  convertible pre post keys ->
  exists changes, _analyze_balance_changes self pre post keys = Ok changes.
Proof.
  intros H. apply (loop_returns self pre post keys (List.length pre) 0 []); [lia|exact H].
Qed.

(** C1, for account-key lists without a repeated key.  The extractor returns
    whenever the balances it reads convert to float, and then
    [account_keys[i]] is a key of the output exactly when [i] is below the
    length of all three lists and [|post[i]/1e9 - pre[i]/1e9| >=
    min_threshold]; the entry stored under it holds [pre[i]/1e9],
    [post[i]/1e9] and their difference; a change whose magnitude equals the
    threshold is included. *)
Theorem extractor_threshold_distinct_keys
  (self : TransactionScanner) (pre post : list Z) (keys : list string) :
  NoDup keys ->
  (convertible pre post keys ->
   exists changes, _analyze_balance_changes self pre post keys = Ok changes) /\
  forall (changes : dict BalanceChange) (i : nat) (k : string),
    _analyze_balance_changes self pre post keys = Ok changes ->
    nth_error keys i = Some k ->
    (In k (Py.keys changes) <->
     (i < List.length pre)%nat /\ (i < List.length post)%nat /\
     exists e, entry_at pre post i = Ok e /\
               PrimFloat.leb (min_amount_threshold (client self))
                             (PrimFloat.abs (change e)) = true) /\
    (forall e, dict_lookup k changes = Some e ->
       exists p q,
         nth_error pre i = Some p /\ nth_error post i = Some q /\
         div_1e9 p = Ok (pre_balance e) /\ div_1e9 q = Ok (post_balance e) /\
         change e = PrimFloat.sub (post_balance e) (pre_balance e)) /\
    (forall e,
       (i < List.length pre)%nat -> (i < List.length post)%nat ->
       entry_at pre post i = Ok e ->
       PrimFloat.eqb (PrimFloat.abs (change e))
                     (min_amount_threshold (client self)) = true ->
       dict_lookup k changes = Some e).
Proof.
  intros ND. split; [apply analyze_returns|].
  intros changes i k Hrun Hk.
  destruct (analyze_holds_last self pre post keys changes Hrun) as (_ & Hlook).
  assert (Only : forall j, nth_error keys j = Some k -> j = i).
  { intros j Hj. apply (proj1 (NoDup_nth_error keys) ND).
    - apply nth_error_Some. congruence.
    - congruence. }
  assert (Look : forall e,
            dict_lookup k changes = Some e <-> qualifies self pre post keys i k e).
  { intros e. rewrite (Hlook k e). split.
    - intros (j & Hq & _). pose proof Hq as (_ & _ & Hj & _).
      apply Only in Hj. subst j. exact Hq.
    - intros Hq. exists i. split; [exact Hq|].
      intros j e' Hlt (_ & _ & Hj & _). apply Only in Hj. lia. }
  split; [|split].
  - rewrite DictFacts.in_keys_lookup. split.
    + intros (e & He). apply Look in He. destruct He as (H1 & H2 & _ & H4 & H5). eauto.
    + intros (H1 & H2 & e & H4 & H5). exists e. apply Look. repeat split; assumption.
  - intros e He. apply Look in He. destruct He as (_ & _ & _ & H4 & _).
    apply entry_at_inv. exact H4.
  - intros e H1 H2 H4 Hb. apply Look. repeat split; try assumption.
    apply FloatFacts.eqb_leb. exact Hb.
Qed.

Lemma extractor_threshold_distinct_keys_witness :
  In "B"%string
     (Py.keys [("A"%string, {| pre_balance := 10; post_balance := 5; change := -5 |});
               ("B"%string, {| pre_balance := 0;
                               post_balance := PrimFloat.div 5000200000 1e9;
                               change := PrimFloat.div 5000200000 1e9 |})]) <->
  (1 < List.length pay_pre)%nat /\ (1 < List.length pay_post)%nat /\
  exists e, entry_at pay_pre pay_post 1 = Ok e /\
            PrimFloat.leb (min_amount_threshold (client (scanner 0.001)))
                          (PrimFloat.abs (change e)) = true.
Proof.
  refine (proj1 (proj2 (extractor_threshold_distinct_keys
                          (scanner 0.001) pay_pre pay_post pay_keys _) _ 1%nat "B"%string _ _)).
  - repeat constructor; cbn; intuition discriminate.
  - vm_compute. reflexivity.
  - reflexivity.
Defined.

(** With a repeated key the statement of C1 fails: index 1 carries key "A"
    and a change of 0 against a threshold of 1, yet "A" is in the output
    (because index 0, with the same key, qualifies). *)
Lemma extractor_repeated_key_counterexample :
  exists changes e,
    _analyze_balance_changes (scanner 1) twice_pre twice_post twice_keys = Ok changes /\
    nth_error twice_keys 1 = Some "A"%string /\
    In "A"%string (Py.keys changes) /\
    entry_at twice_pre twice_post 1 = Ok e /\
    PrimFloat.leb (min_amount_threshold (client (scanner 1)))
                  (PrimFloat.abs (change e)) = false.
Proof.
  eexists. eexists. split; [vm_compute; reflexivity|].
  split; [reflexivity|]. split; [left; reflexivity|].
  split; [vm_compute; reflexivity|]. vm_compute. reflexivity.
Qed.

Lemma candidates_of_key (self : TransactionScanner) (k : string)
  (d : dict BalanceChange) :
  NoDup (Py.keys d) ->
  filter (fun t => String.eqb (account t) k) (significant_transfers_of self d) =
  match dict_lookup k d with
  | Some e =>
      if significant self (change e)
      then [{| account := k; t_change := change e; details := e |}]
      else []
  | None => []
  end.
Proof.
  induction d as [|[k0 e0] d IH]; [reflexivity|]. intros ND.
  inversion ND as [|? ? Hnotin ND']; subst.
  change (significant_transfers_of self ((k0, e0) :: d))
    with ((if significant self (change e0)
           then [{| account := k0; t_change := change e0; details := e0 |}]
           else []) ++ significant_transfers_of self d).
  rewrite filter_app, (IH ND'). cbn [dict_lookup].
  destruct (String.eqb k0 k) eqn:E0.
  - apply String.eqb_eq in E0. subst k0.
    destruct (dict_lookup k d) as [e|] eqn:L.
    + exfalso. apply Hnotin. apply DictFacts.in_keys_lookup. eauto.
    + destruct (significant self (change e0)); cbn; [|reflexivity].
      rewrite String.eqb_refl. reflexivity.
  - destruct (significant self (change e0)); cbn; [|reflexivity].
    rewrite E0. reflexivity.
Qed.

(** C9.  When a key [k] is carried by two qualifying indices [i < j] and [j]
    is the last qualifying index that carries it, the dictionary returned by
    the extractor holds under [k] the entry of index [j] and no other, and
    the key contributes exactly one candidate, built from that entry; that
    dictionary is the [balance_changes] of whatever the matcher returns for a
    transaction with these sequences, so the deltas of the earlier indices
    are gone from it. *)
Theorem repeated_key_keeps_last_entry
  (self : TransactionScanner) (pre post : list Z) (keys : list string)
  (changes : dict BalanceChange) (i j : nat) (k : string) (ei ej : BalanceChange) :
  _analyze_balance_changes self pre post keys = Ok changes ->
  qualifies self pre post keys i k ei ->
  qualifies self pre post keys j k ej ->
  (i < j)%nat ->
  (forall j' e', (j < j')%nat -> ~ qualifies self pre post keys j' k e') ->
  dict_lookup k changes = Some ej /\
  (forall e, In (k, e) changes -> e = ej) /\
  filter (fun t => String.eqb (account t) k) (significant_transfers_of self changes) =
  [{| account := k; t_change := change ej; details := ej |}] /\
  (forall tx T tol r,
     pre_balances_of tx = pre -> post_balances_of tx = post ->
     account_keys_list tx = keys ->
     _parse_transaction self tx T tol = Some r ->
     p_balance_changes r = changes).
Proof.
  intros Hrun Hi Hj Hlt Hlast.
  destruct (analyze_holds_last self pre post keys changes Hrun) as (ND & Hlook).
  assert (L : dict_lookup k changes = Some ej).
  { apply Hlook. exists j. split; assumption. }
  split; [exact L|]. split; [|split].
  - intros e Hin. apply (DictFacts.in_lookup k e changes ND) in Hin. congruence.
  - rewrite (candidates_of_key self k changes ND), L.
    destruct Hj as (_ & _ & _ & _ & Hs). rewrite Hs. reflexivity.
  - intros tx T tol r <- <- <- Hr.
    apply MatcherFacts.parse_some_prelude in Hr. destruct Hr as (meta & Hpre).
    apply MatcherFacts.parse_prelude_inv in Hpre. destruct Hpre as (_ & Hrun').
    congruence.
Qed.

Lemma repeated_key_keeps_last_entry_witness :
  dict_lookup "A"%string [("A"%string, {| pre_balance := 0; post_balance := 3; change := 3 |})] =
    Some {| pre_balance := 0; post_balance := 3; change := 3 |} /\
  (forall e,
     In ("A"%string, e) [("A"%string, {| pre_balance := 0; post_balance := 3; change := 3 |})] ->
     e = {| pre_balance := 0; post_balance := 3; change := 3 |}) /\
  filter (fun t => String.eqb (account t) "A")
    (significant_transfers_of (scanner 1)
       [("A"%string, {| pre_balance := 0; post_balance := 3; change := 3 |})]) =
  [{| account := "A"; t_change := 3;
      details := {| pre_balance := 0; post_balance := 3; change := 3 |} |}] /\
  (forall tx T tol r,
     pre_balances_of tx = twice_pre -> post_balances_of tx = twice_post_both ->
     account_keys_list tx = twice_keys ->
     _parse_transaction (scanner 1) tx T tol = Some r ->
     p_balance_changes r =
       [("A"%string, {| pre_balance := 0; post_balance := 3; change := 3 |})]).
Proof.
  refine (repeated_key_keeps_last_entry (scanner 1) twice_pre twice_post_both twice_keys
            _ 0 1 "A"%string {| pre_balance := 0; post_balance := 2; change := 2 |}
            {| pre_balance := 0; post_balance := 3; change := 3 |} _ _ _ _ _).
  - vm_compute. reflexivity.
  - repeat split; try (cbn; lia); vm_compute; reflexivity.
  - repeat split; try (cbn; lia); vm_compute; reflexivity.
  - lia.
  - intros j' e' Hlt (Hb & _). cbn in Hb. lia.
Defined.

(* ------------------------------------------------------------------------- *)
(** * Transfer matcher: the statements *)

(** C2, with the difference as the code computes it.  A candidate is in the
    match set exactly when the binary64 value [abs(abs(change) - T)] that the
    code computes is at most the tolerance.  The comparison is inclusive:
    with a tolerance that is at least zero, a candidate whose computed
    difference [abs(change) - T] is the tolerance or its opposite is in, and
    one whose computed absolute difference exceeds the tolerance is out.
    When the match set is empty the matcher returns nothing. *)
Theorem tolerance_window_as_computed
  (self : TransactionScanner) (T tol : float) :
  (forall cands t,
     In t (matches_of T tol cands) <->
     In t cands /\
     PrimFloat.leb (PrimFloat.abs (PrimFloat.sub (PrimFloat.abs (t_change t)) T)) tol = true) /\
  (forall t,
     PrimFloat.leb 0 tol = true ->
     PrimFloat.sub (PrimFloat.abs (t_change t)) T = tol \/
     PrimFloat.sub (PrimFloat.abs (t_change t)) T = PrimFloat.opp tol ->
     within_tolerance T tol t = true) /\
  (forall t,
     PrimFloat.ltb tol (PrimFloat.abs (PrimFloat.sub (PrimFloat.abs (t_change t)) T)) = true ->
     within_tolerance T tol t = false) /\
  (forall tx meta bc,
     parse_prelude self tx = Ok (Some (meta, bc)) ->
     matches_of T tol (significant_transfers_of self bc) = [] ->
     _parse_transaction self tx T tol = None).
Proof.
  split; [|split; [|split]].
  - intros cands t. unfold matches_of. rewrite filter_In. reflexivity.
  - intros t Hpos [H|H]; unfold within_tolerance; cbv zeta; rewrite H.
    + apply FloatFacts.leb_abs_self. exact Hpos.
    + apply FloatFacts.leb_abs_opp. exact Hpos.
  - intros t H. unfold within_tolerance. cbv zeta.
    apply FloatFacts.ltb_leb_false. exact H.
  - intros tx meta bc Hpre Hnone.
    rewrite (MatcherFacts.parse_transaction_prelude self tx T tol meta bc Hpre), Hnone.
    reflexivity.
Qed.

Lemma tolerance_window_as_computed_witness :
  within_tolerance 5 0.5
    {| account := "B"; t_change := 5.5;
       details := {| pre_balance := 0; post_balance := 5.5; change := 5.5 |} |} = true.
Proof.
  refine (proj1 (proj2 (tolerance_window_as_computed (scanner 1) 5 0.5)) _ _ _).
  - vm_compute. reflexivity.
  - left. vm_compute. reflexivity.
Defined.

(** Neither reading of the endpoints survives the rounding of the difference.
    First, an account going from 0.1 to 0.4 SOL is the only candidate and its
    computed magnitude is the float [0.1 + 0.2]; with target 0.1 and
    tolerance 0.2 it is at the upper endpoint as Python computes it, and the
    match set is empty.  Second, an account going from 0 to 3 SOL with the
    target [2^-51 - 2^-80] and the tolerance [3 - 2^-51]: as rational numbers
    the distance of the magnitude from the target exceeds the tolerance, and
    the candidate is matched all the same. *)
Lemma tolerance_endpoint_counterexample :
  (exists meta bc t,
     parse_prelude (scanner 0.001) tenth_tx = Ok (Some (meta, bc)) /\
     significant_transfers_of (scanner 0.001) bc = [t] /\
     PrimFloat.abs (t_change t) = PrimFloat.add 0.1 0.2 /\
     PrimFloat.leb 0 0.2 = true /\
     matches_of 0.1 0.2 [t] = [] /\
     _parse_transaction (scanner 0.001) tenth_tx 0.1 0.2 = None) /\
  (exists meta bc t r,
     parse_prelude (scanner 0.001) three_tx = Ok (Some (meta, bc)) /\
     significant_transfers_of (scanner 0.001) bc = [t] /\
     PrimFloat.ltb 0 tiny_target = true /\
     PrimFloat.leb 0 wide_tolerance = true /\
     Qlt (exact wide_tolerance)
         (Qabs (Qminus (exact (PrimFloat.abs (t_change t))) (exact tiny_target))) /\
     matches_of tiny_target wide_tolerance [t] = [t] /\
     _parse_transaction (scanner 0.001) three_tx tiny_target wide_tolerance = Some r).
Proof.
  split.
  - do 3 eexists. split; [vm_compute; reflexivity|].
    split; [vm_compute; reflexivity|].
    repeat split; vm_compute; reflexivity.
  - do 4 eexists. split; [vm_compute; reflexivity|].
    split; [vm_compute; reflexivity|].
    repeat split; vm_compute; reflexivity.
Qed.

(** C3.  When the match set of a transaction is not empty, [best_match] is a
    match whose magnitude no other match exceeds, and every match that
    precedes it in iteration order is strictly smaller, so among matches of
    equal magnitude the first one is selected; the matches are iterated in
    the order in which their accounts first qualify among the account keys.
    Whatever the matcher returns has the magnitude of [best_match] as its
    amount, and it does return when the fee converts. *)
Theorem best_match_largest_first
  (self : TransactionScanner) (tx : Tx) (T tol : float)
  (meta : option Meta) (bc : dict BalanceChange) :
  parse_prelude self tx = Ok (Some (meta, bc)) ->
  matches_of T tol (significant_transfers_of self bc) <> [] ->
  exists best before after,
    best_match_of (matches_of T tol (significant_transfers_of self bc)) = Some best /\
    matches_of T tol (significant_transfers_of self bc) = before ++ best :: after /\
    Forall (fun t => PrimFloat.ltb (PrimFloat.abs (t_change t))
                                   (PrimFloat.abs (t_change best)) = true) before /\
    Forall (fun t => PrimFloat.leb (PrimFloat.abs (t_change t))
                                   (PrimFloat.abs (t_change best)) = true) after /\
    (forall t1 t2,
       precedes (matches_of T tol (significant_transfers_of self bc)) t1 t2 ->
       exists i1 i2,
         (i1 < i2)%nat /\
         first_qualifying self (pre_balances_of tx) (post_balances_of tx)
           (account_keys_list tx) (account t1) i1 /\
         first_qualifying self (pre_balances_of tx) (post_balances_of tx)
           (account_keys_list tx) (account t2) i2) /\
    (forall r, _parse_transaction self tx T tol = Some r ->
               p_amount r = PrimFloat.abs (t_change best)) /\
    (forall fee, fee_is meta fee ->
                 exists r, _parse_transaction self tx T tol = Some r).
Proof.
  intros Hpre Hne.
  set (matches := matches_of T tol (significant_transfers_of self bc)) in *.
  pose proof (MatcherFacts.matches_are_numbers T tol (significant_transfers_of self bc)) as N.
  fold matches in N.
  destruct (MatcherFacts.max_by_split Transfer (fun x => PrimFloat.abs (t_change x))
              matches Hne N) as (best & before & after & Hbest & Hsplit & Hb & Ha).
  exists best, before, after.
  assert (Nall : Forall (fun t => number (PrimFloat.abs (t_change t)))
                        (before ++ best :: after)) by (rewrite <- Hsplit; exact N).
  apply Forall_app in Nall. destruct Nall as (_ & Nrest).
  inversion Nrest as [|? ? Nbest Nafter]; subst.
  pose proof (MatcherFacts.parse_transaction_prelude self tx T tol meta bc Hpre) as E.
  unfold best_match_of in E. fold matches in E. rewrite Hbest in E.
  split; [exact Hbest|]. split; [exact Hsplit|]. split; [exact Hb|].
  split; [|split; [|split]].
  - rewrite Forall_forall in *. intros t Hin.
    apply FloatFacts.not_ltb_leb; auto.
  - intros t1 t2 P. unfold matches, matches_of in P.
    apply OrderFacts.precedes_filter in P.
    apply (OrderFacts.precedes_map account) in P.
    destruct (MatcherFacts.parse_prelude_inv self tx meta bc Hpre) as (_ & Hrun).
    rewrite (candidates_are_entries _ _ _ _ _ Hrun) in P.
    exact (analyze_keeps_order _ _ _ _ _ Hrun _ _ P).
  - intros r Hr. rewrite E in Hr.
    destruct (build_result _ _ _ _) as [r'|] eqn:B; [|discriminate].
    injection Hr as <-. apply MatcherFacts.build_result_inv in B. tauto.
  - intros fee Hfee. rewrite E.
    rewrite (MatcherFacts.build_result_fee meta bc best _ fee Hfee). eauto.
Qed.

Lemma best_match_largest_first_witness :
  exists best before after,
    best_match_of (matches_of 5 0.01 (significant_transfers_of (scanner 0.001) pay_changes))
      = Some best /\
    matches_of 5 0.01 (significant_transfers_of (scanner 0.001) pay_changes)
      = before ++ best :: after /\
    Forall (fun t => PrimFloat.ltb (PrimFloat.abs (t_change t))
                                   (PrimFloat.abs (t_change best)) = true) before /\
    Forall (fun t => PrimFloat.leb (PrimFloat.abs (t_change t))
                                   (PrimFloat.abs (t_change best)) = true) after /\
    (forall t1 t2,
       precedes (matches_of 5 0.01 (significant_transfers_of (scanner 0.001) pay_changes))
                t1 t2 ->
       exists i1 i2,
         (i1 < i2)%nat /\
         first_qualifying (scanner 0.001) (pre_balances_of pay_tx) (post_balances_of pay_tx)
           (account_keys_list pay_tx) (account t1) i1 /\
         first_qualifying (scanner 0.001) (pre_balances_of pay_tx) (post_balances_of pay_tx)
           (account_keys_list pay_tx) (account t2) i2) /\
    (forall r, _parse_transaction (scanner 0.001) pay_tx 5 0.01 = Some r ->
               p_amount r = PrimFloat.abs (t_change best)) /\
    (forall fee, fee_is pay_meta fee ->
                 exists r, _parse_transaction (scanner 0.001) pay_tx 5 0.01 = Some r).
Proof.
  apply (best_match_largest_first (scanner 0.001) pay_tx 5 0.01 pay_meta pay_changes).
  - vm_compute. reflexivity.
  - vm_compute. discriminate.
Defined.

(** A candidate that the counterparty loop passes over: same account as the
    best match, or a sum whose absolute value is not below the threshold. *)
Lemma offsets_false (self : TransactionScanner) (best t : Transfer) :
  offsets self best t = false ->
  account t = account best \/
  PrimFloat.ltb (PrimFloat.abs (PrimFloat.add (t_change t) (t_change best)))
                (min_amount_threshold (client self)) = false.
Proof.
  unfold offsets. intros H. apply andb_false_iff in H. destruct H as [H|H].
  - left. apply negb_false_iff, String.eqb_eq in H. exact H.
  - right. exact H.
Qed.

(** C4, with the comparison of line 191 written out.  For a transaction with
    a best match: the counterparty is the first candidate, in the order in
    which the candidates were produced, whose account differs from the best
    match's and whose change added to the best match's has an absolute value
    strictly below [min_threshold]; every candidate before it has the best
    match's account or a sum whose absolute value is not below the
    threshold; and there is no counterparty exactly when every candidate is
    of that kind.  In what the matcher returns, the sender is the best
    match's account when its change is negative, else the counterparty's
    account if there is one, else absent; the receiver is the best match's
    account when its change is positive, else the counterparty's account if
    there is one, else absent.  The matcher does return when the fee
    converts. *)
Theorem counterparty_sender_receiver
  (self : TransactionScanner) (tx : Tx) (T tol : float)
  (meta : option Meta) (bc : dict BalanceChange) (best : Transfer) :
  parse_prelude self tx = Ok (Some (meta, bc)) ->
  best_match_of (matches_of T tol (significant_transfers_of self bc)) = Some best ->
  exists counterparty : option Transfer,
    match counterparty with
    | Some c =>
        exists before after,
          significant_transfers_of self bc = before ++ c :: after /\
          account c <> account best /\
          PrimFloat.ltb (PrimFloat.abs (PrimFloat.add (t_change c) (t_change best)))
                        (min_amount_threshold (client self)) = true /\
          Forall
            (fun t =>
               account t = account best \/
               PrimFloat.ltb (PrimFloat.abs (PrimFloat.add (t_change t) (t_change best)))
                             (min_amount_threshold (client self)) = false)
            before
    | None =>
        Forall
          (fun t =>
             account t = account best \/
             PrimFloat.ltb (PrimFloat.abs (PrimFloat.add (t_change t) (t_change best)))
                           (min_amount_threshold (client self)) = false)
          (significant_transfers_of self bc)
    end /\
    (forall r, _parse_transaction self tx T tol = Some r ->
       p_sender r =
         (if PrimFloat.ltb (t_change best) 0 then Some (account best)
          else option_map account counterparty) /\
       p_receiver r =
         (if PrimFloat.ltb 0 (t_change best) then Some (account best)
          else option_map account counterparty)) /\
    (forall fee, fee_is meta fee ->
                 exists r, _parse_transaction self tx T tol = Some r).
Proof.
  intros Hpre Hbest.
  pose proof (MatcherFacts.parse_transaction_prelude self tx T tol meta bc Hpre) as E.
  rewrite Hbest in E.
  exists (counterparty_of self best (significant_transfers_of self bc)).
  split; [|split].
  - unfold counterparty_of.
    pose proof (MatcherFacts.find_first (offsets self best)
                  (significant_transfers_of self bc)) as F.
    destruct (find (offsets self best) (significant_transfers_of self bc)) as [c|].
    + destruct F as (before & after & Hsplit & Hc & Hb).
      exists before, after. unfold offsets in Hc.
      apply andb_true_iff in Hc. destruct Hc as (Hacc & Hsum).
      apply negb_true_iff, String.eqb_neq in Hacc.
      split; [exact Hsplit|]. split; [exact Hacc|]. split; [exact Hsum|].
      eapply Forall_impl; [|exact Hb]. intros t. apply offsets_false.
    + eapply Forall_impl; [|exact F]. intros t. apply offsets_false.
  - intros r Hr. rewrite E in Hr.
    destruct (build_result _ _ _ _) as [r'|] eqn:B; [|discriminate].
    injection Hr as <-. apply MatcherFacts.build_result_inv in B.
    destruct B as (_ & Hs & Hr & _). rewrite Hs, Hr.
    unfold sender_of, receiver_of.
    destruct (counterparty_of self best (significant_transfers_of self bc)); auto.
  - intros fee Hfee. rewrite E.
    rewrite (MatcherFacts.build_result_fee meta bc best _ fee Hfee). eauto.
Qed.

(** The statement decides the payment of section 8 of the specification: A
    is the first candidate, its account is not B's and its change offsets
    B's, so A is the counterparty and the sender, and B is the receiver. *)
Lemma counterparty_sender_receiver_witness :
  exists r,
    _parse_transaction (scanner 0.001) pay_tx 5 0.01 = Some r /\
    p_sender r = Some "A"%string /\
    p_receiver r = Some "B"%string.
Proof.
  destruct (counterparty_sender_receiver (scanner 0.001) pay_tx 5 0.01 pay_meta
              pay_changes pay_best
              ltac:(vm_compute; reflexivity) ltac:(vm_compute; reflexivity))
    as (cp & Hcp & Hroles & Hret).
  assert (Hfee : fee_is pay_meta (PrimFloat.div 5000 1e9)).
  { exists (Some 5000%Z). split; vm_compute; reflexivity. }
  destruct (Hret _ Hfee) as (r & Hr). exists r. split; [exact Hr|].
  destruct (Hroles r Hr) as (Hs & Hrcv). rewrite Hs, Hrcv.
  change (PrimFloat.ltb (t_change pay_best) 0) with false.
  change (PrimFloat.ltb 0 (t_change pay_best)) with true.
  assert (Cands : exists a b,
            significant_transfers_of (scanner 0.001) pay_changes = [a; b] /\
            account a = "A"%string /\ account a <> account pay_best /\
            PrimFloat.ltb (PrimFloat.abs (PrimFloat.add (t_change a) (t_change pay_best)))
                          (min_amount_threshold (client (scanner 0.001))) = true).
  { do 2 eexists. split; [vm_compute; reflexivity|].
    split; [reflexivity|]. split; [discriminate|]. vm_compute. reflexivity. }
  destruct Cands as (a & b & Hcands & Ha & Hne & Hlt).
  assert (First : forall l,
            Forall
              (fun t =>
                 account t = account pay_best \/
                 PrimFloat.ltb
                   (PrimFloat.abs (PrimFloat.add (t_change t) (t_change pay_best)))
                   (min_amount_threshold (client (scanner 0.001))) = false)
              (a :: l) -> False).
  { intros l F. inversion F as [|? ? [H|H] _]; subst; [exact (Hne H)|congruence]. }
  destruct cp as [c|].
  - destruct Hcp as (before & after & Hsplit & _ & _ & Hbefore).
    rewrite Hcands in Hsplit. destruct before as [|x before].
    + injection Hsplit as <- _. cbn [option_map]. rewrite Ha. auto.
    + injection Hsplit as <- _. destruct (First _ Hbefore).
  - rewrite Hcands in Hcp. destruct (First _ Hcp).
Defined.

(** The test is strict.  A sends 5 SOL and B receives 5.5 SOL with a
    threshold of 0.5: B is the best match for a target of 5.5, the changes of
    A and B add up to exactly 0.5, which is at most the threshold and not
    below it, and the matcher finds no counterparty: the sender is absent. *)
Lemma sum_at_threshold_counterexample :
  exists r a,
    _parse_transaction (scanner 0.5) edge_tx 5.5 0.01 = Some r /\
    p_amount r = 5.5%float /\
    In a (significant_transfers_of (scanner 0.5) (p_balance_changes r)) /\
    account a = "A"%string /\
    PrimFloat.abs (PrimFloat.add (t_change a) 5.5) = 0.5%float /\
    PrimFloat.leb (PrimFloat.abs (PrimFloat.add (t_change a) 5.5))
                  (min_amount_threshold (client (scanner 0.5))) = true /\
    p_sender r = None /\
    p_receiver r = Some "B"%string.
Proof.
  do 2 eexists. split; [vm_compute; reflexivity|].
  split; [vm_compute; reflexivity|].
  split; [left; reflexivity|].
  repeat split; vm_compute; reflexivity.
Qed.

(** C5.  A transaction whose metadata carries a non-null error status yields
    nothing, whatever its balance arrays and account keys hold; so does a
    transaction whose pre-balance array, post-balance array or account-key
    list is empty (or absent, or [null]). *)
Theorem rejected_transactions_yield_nothing
  (self : TransactionScanner) (tx : Tx) (T tol : float) :
  has_error_status tx \/ empty_pre_balances tx \/
  empty_post_balances tx \/ empty_account_keys tx ->
  _parse_transaction self tx T tol = None.
Proof.
  unfold _parse_transaction, parse_try, parse_prelude.
  intros [(m & e & Hm & He)|[(m & Hm & Hf)|[(m & Hm & Hf)|(msg & ks & Hmsg & Hks & Hf)]]].
  - unfold meta_of. rewrite Hm. cbn [get on_dict].
    destruct (message_of tx); cbn [bind]; [|reflexivity].
    rewrite He. reflexivity.
  - rewrite Hm. destruct (message_of tx); cbn [bind on_dict]; [|reflexivity].
    destruct (get (err m) None); [reflexivity|]. cbn [bind].
    rewrite Hf. reflexivity.
  - rewrite Hm. destruct (message_of tx); cbn [bind on_dict]; [|reflexivity].
    destruct (get (err m) None); [reflexivity|]. cbn [bind].
    rewrite Hf, orb_true_r. reflexivity.
  - rewrite Hmsg. cbn [bind].
    destruct (meta_of tx) as [m|]; cbn [on_dict bind]; [|reflexivity].
    destruct (get (err m) None); [reflexivity|]. cbn [bind].
    destruct (falsy _ || falsy _); [reflexivity|].
    rewrite Hks. cbn [bind]. rewrite Hf. reflexivity.
Qed.

Lemma rejected_transactions_yield_nothing_witness :
  _parse_transaction (scanner 0.001)
    (failed_tx pay_pre pay_post pay_keys ["sig1"%string]) 5 0.01 = None.
Proof.
  apply rejected_transactions_yield_nothing.
  left. eexists. eexists. split; reflexivity.
Defined.

(* ------------------------------------------------------------------------- *)
(** * Window resolver and scan orchestrator: the statements *)

(** C7, with the test that the loop applies to a block time.
    [get_recent_blocks limit] asks for the latest slot and then for the
    inclusive range [latest - limit, latest].  When the range query yields no
    result it returns the empty list and makes no further request.  Otherwise
    it asks for the block time of every returned slot, in order, and returns
    pairs in descending slot order: exactly the returned slots whose block
    time came back as a non-zero integer, each with that time; a slot whose
    block time is absent, [null] or zero is left out. *)
Theorem recent_blocks_window (endpoint : Endpoint) (limit : Z) (st : ClientState) :
  let id := S (request_counter st) in
  let latest := fst (get_latest_block endpoint st) in
  let range := GetBlocks (latest - limit) latest in
  let blocks := fst (get_recent_blocks endpoint limit st) in
  let st' := snd (get_recent_blocks endpoint limit st) in
  match slots_at endpoint (latest - limit) latest (S id) with
  | None => blocks = [] /\ st' = after st [GetSlot; range]
  | Some slots =>
      st' = after st ([GetSlot; range] ++ map GetBlockTime slots) /\
      StronglySorted slot_ge blocks /\
      Permutation (kept endpoint (S (S id)) slots) blocks /\
      forall slot t,
        In (slot, t) blocks <->
        exists n, nth_error slots n = Some slot /\
                  block_time_at endpoint (S (S id) + n) slot = Some t /\ t <> 0%Z
  end.
Proof.
  cbv zeta. rewrite ResolverFacts.get_latest_block_eq. cbn [fst].
  pose proof (ResolverFacts.get_recent_blocks_eq endpoint limit st) as E.
  cbv zeta in E. rewrite E.
  destruct (slots_at endpoint _ _ _) as [slots|]; cbn [fst snd]; [|auto].
  split; [reflexivity|]. split; [apply ResolverFacts.sorted_reverse_descending|].
  split; [apply ResolverFacts.sorted_reverse_perm|].
  intros slot t. rewrite <- ResolverFacts.in_kept. split; intros H.
  - eapply Permutation_in; [|exact H]. symmetry. apply ResolverFacts.sorted_reverse_perm.
  - eapply Permutation_in; [|exact H]. apply ResolverFacts.sorted_reverse_perm.
Qed.

(** A block time of zero is retrieved and the slot is dropped all the same:
    the range query returns slot 100, [get_block_time] returns 0 for it, and
    [get_recent_blocks] returns the empty list. *)
Lemma zero_block_time_counterexample :
  slots_at (one_block (Some 0%Z) []) 95 100 2 = Some [100%Z] /\
  fst (get_block_time (one_block (Some 0%Z) []) 100 (after fresh [GetSlot; GetBlocks 95 100]))
    = Some 0%Z /\
  fst (get_recent_blocks (one_block (Some 0%Z) []) 5 fresh) = [].
Proof. repeat split. Qed.

(** C8.  When the window resolver yields no block, [scan_for_amount] returns
    the empty list and leaves the client in the state in which the resolver
    left it: no request is made beyond the resolver's own, and none of those
    is a [getBlock]. *)
Theorem no_blocks_no_further_calls
  (endpoint : Endpoint) (self : TransactionScanner)
  (amount_in_sol : float) (block_limit : Z) (tolerance : float) (st : ClientState) :
  fst (get_recent_blocks endpoint block_limit st) = [] ->
  scan_for_amount endpoint self amount_in_sol block_limit tolerance st =
    (Ok [], snd (get_recent_blocks endpoint block_limit st)) /\
  forall slot,
    In (GetBlock slot)
       (history (snd (scan_for_amount endpoint self amount_in_sol block_limit tolerance st))) ->
    In (GetBlock slot) (history st).
Proof.
  intros H. unfold scan_for_amount.
  destruct (get_recent_blocks endpoint block_limit st) as [blocks st1] eqn:E.
  cbn [fst snd] in *. subst blocks. split; [reflexivity|]. cbn [snd].
  pose proof (ResolverFacts.get_recent_blocks_eq endpoint block_limit st) as R.
  cbv zeta in R. rewrite E in R.
  intros slot Hin.
  destruct (slots_at endpoint _ _ _) as [slots|];
    apply (f_equal snd) in R; cbn [snd] in R; subst st1;
    cbn [after history] in Hin; apply in_app_or in Hin;
    destruct Hin as [Hin|Hin]; auto; exfalso.
  - cbn in Hin. destruct Hin as [Hin|[Hin|Hin]]; try discriminate.
    apply in_map_iff in Hin. destruct Hin as (s & Hs & _). discriminate.
  - cbn in Hin. intuition discriminate.
Qed.

Lemma no_blocks_no_further_calls_witness :
  scan_for_amount unreachable (scanner 0.001) 5 5 0.01 fresh =
    (Ok [], snd (get_recent_blocks unreachable 5 fresh)) /\
  forall slot,
    In (GetBlock slot)
       (history (snd (scan_for_amount unreachable (scanner 0.001) 5 5 0.01 fresh))) ->
    In (GetBlock slot) (history fresh).
Proof.
  apply no_blocks_no_further_calls. reflexivity.
Defined.

(** C10, with both ways in which the result can be empty.  When the
    [getSlot] request fails or its response has no result, [get_latest_block]
    returns 0 and [get_recent_blocks] goes on to request the range
    [0 - limit, 0] instead of stopping.  It then returns the empty sequence
    exactly when that range query yields no result or none of the slots it
    yields has a non-zero block time. *)
Theorem latest_block_fallback (endpoint : Endpoint) (limit : Z) (st : ClientState) :
  let id := S (request_counter st) in
  truthy (answer (post_getSlot endpoint) id) = false \/
  result_of (answer (post_getSlot endpoint) id) = None ->
  fst (get_latest_block endpoint st) = 0%Z /\
  (exists rest,
     history (snd (get_recent_blocks endpoint limit st)) =
     history st ++ GetSlot :: GetBlocks (0 - limit) 0 :: rest) /\
  (fst (get_recent_blocks endpoint limit st) = [] <->
   match slots_at endpoint (0 - limit) 0 (S id) with
   | None => True
   | Some slots =>
       forall n slot t,
         nth_error slots n = Some slot ->
         block_time_at endpoint (S (S id) + n) slot = Some t -> t = 0%Z
   end).
Proof.
  cbv zeta. intros H.
  assert (L : latest_at endpoint (S (request_counter st)) = 0%Z).
  { unfold latest_at. destruct H as [-> | ->]; [reflexivity|].
    destruct (truthy _); reflexivity. }
  rewrite ResolverFacts.get_latest_block_eq. cbn [fst]. split; [exact L|].
  pose proof (ResolverFacts.get_recent_blocks_eq endpoint limit st) as E.
  cbv zeta in E. rewrite L in E. rewrite E.
  destruct (slots_at endpoint _ _ _) as [slots|]; cbn [fst snd after history].
  - split; [exists (map GetBlockTime slots); reflexivity|].
    rewrite ResolverFacts.sorted_reverse_nil. apply ResolverFacts.kept_nil.
  - split; [exists []; reflexivity|]. tauto.
Qed.

Lemma latest_block_fallback_witness :
  fst (get_latest_block slotless fresh) = 0%Z /\
  (exists rest,
     history (snd (get_recent_blocks slotless 5 fresh)) =
     history fresh ++ GetSlot :: GetBlocks (0 - 5) 0 :: rest) /\
  (fst (get_recent_blocks slotless 5 fresh) = [] <->
   match slots_at slotless (0 - 5) 0 2 with
   | None => True
   | Some slots =>
       forall n slot t,
         nth_error slots n = Some slot ->
         block_time_at slotless (3 + n) slot = Some t -> t = 0%Z
   end).
Proof.
  apply (latest_block_fallback slotless 5 fresh). left. reflexivity.
Defined.

(** [getSlot] fails, the range [-5, 0] is requested and answered with slot 0,
    the block time of slot 0 is [null]: [get_recent_blocks] returns the empty
    list although the range query yielded a result. *)
Lemma empty_without_range_failure_counterexample :
  answer (post_getSlot slotless) 1 = None /\
  slots_at slotless (-5) 0 2 = Some [0%Z] /\
  get_recent_blocks slotless 5 fresh =
    ([], after fresh [GetSlot; GetBlocks (-5) 0; GetBlockTime 0]).
Proof. repeat split. Qed.

(** An accepted transaction whose list of signatures is empty stops the scan
    of its block with [IndexError], whatever surrounds it. *)
Lemma scan_transactions_empty_signatures
  (self : TransactionScanner) (T tol : float) (slot time : Z)
  (tx : Tx) (rest : list Tx) (matches : list Transaction) (r : Parsed) (body : Body) :
  _parse_transaction self tx T tol = Some r ->
  transaction tx = Val body ->
  signatures body = Val [] ->
  scan_transactions self T tol slot time (tx :: rest) matches = Raise IndexError.
Proof.
  intros Hr Ht Hs. cbn [scan_transactions]. rewrite Hr.
  unfold tx_hash_of. rewrite Ht. cbn [get on_dict bind]. rewrite Hs. reflexivity.
Qed.

(** C6, where the code departs from it.  [unsigned_tx] is a successful
    payment of 5 SOL whose list of signatures is present and empty.  The
    matcher accepts it, and [scan_for_amount] then raises [IndexError] on
    line 229 instead of returning a list. *)
Theorem scan_raises_on_empty_signatures :
  (exists r, _parse_transaction (scanner 0.001) unsigned_tx 5 0.01 = Some r) /\
  fst (scan_for_amount (one_block (Some 1700000000%Z) [unsigned_tx])
         (scanner 0.001) 5 5 0.01 fresh) = Raise IndexError.
Proof.
  split; [eexists|]; vm_compute; reflexivity.
Qed.

(* ------------------------------------------------------------------------- *)
(** * The gateway: further statements *)

Import Gateway.

(** X1.  [_make_rpc_request] returns the body of the first of its three
    attempts that is answered with status 200, and [None] exactly when none
    of the three is; whatever the outcome, the request counter moves by one
    and the request goes on the history. *)
Theorem make_rpc_request_first_200 (A : Type)
  (post : nat -> nat -> Attempt (Response A)) (request : Request) (st : ClientState) :
  let id := S (request_counter st) in
  snd (_make_rpc_request post request st) = after st [request] /\
  (forall body,
     fst (_make_rpc_request post request st) = Some body <->
     exists attempt,
       (attempt < 3)%nat /\ post id attempt = Status200 body /\
       forall earlier, (earlier < attempt)%nat -> answered (post id) earlier = false) /\
  (fst (_make_rpc_request post request st) = None <->
   forall attempt, (attempt < 3)%nat -> answered (post id) attempt = false).
Proof.
  cbv zeta. unfold _make_rpc_request, answered. cbn [fst snd seq try_post].
  set (p := post (S (request_counter st))).
  split; [reflexivity|]. split.
  - intros body. split.
    + destruct (p 0%nat) as [b0| |] eqn:E0;
        [intros [= <-]; exists 0%nat; repeat split; [lia|assumption|lia]| |];
        (destruct (p 1%nat) as [b1| |] eqn:E1;
           [intros [= <-]; exists 1%nat; repeat split; [lia|assumption|];
            intros [|e] He; [rewrite E0; reflexivity|lia]| |]);
        (destruct (p 2%nat) as [b2| |] eqn:E2;
           [intros [= <-]; exists 2%nat; repeat split; [lia|assumption|];
            intros [|[|e]] He; [rewrite E0; reflexivity|rewrite E1; reflexivity|lia]
           |discriminate|discriminate]).
    + intros (attempt & Hlt & Hit & Hearlier).
      destruct attempt as [|[|[|n]]]; [| | |lia].
      * rewrite Hit. reflexivity.
      * pose proof (Hearlier 0%nat ltac:(lia)) as H0.
        destruct (p 0%nat); [discriminate| |]; rewrite Hit; reflexivity.
      * pose proof (Hearlier 0%nat ltac:(lia)) as H0.
        pose proof (Hearlier 1%nat ltac:(lia)) as H1.
        destruct (p 0%nat); [discriminate| |];
          (destruct (p 1%nat); [discriminate| |]); rewrite Hit; reflexivity.
  - split.
    + intros H [|[|[|n]]] Hlt; [| | |lia];
        destruct (p 0%nat); try discriminate; try reflexivity;
        destruct (p 1%nat); try discriminate; try reflexivity;
        destruct (p 2%nat); try discriminate; reflexivity.
    + intros H.
      pose proof (H 0%nat ltac:(lia)) as H0.
      pose proof (H 1%nat ltac:(lia)) as H1.
      pose proof (H 2%nat ltac:(lia)) as H2.
      destruct (p 0%nat); [discriminate| |];
        (destruct (p 1%nat); [discriminate| |]);
        (destruct (p 2%nat); [discriminate| |]); reflexivity.
Qed.

(** X2.  One call posts at least once and at most three times, attempts
    0, 1, 2 in order, and stops right after the first attempt answered with
    status 200: no attempt before the last one posted was answered so, and
    when fewer than three are posted the last one was. *)
Theorem make_rpc_request_posts (A : Type)
  (post : nat -> nat -> Attempt (Response A)) (st : ClientState) :
  let id := S (request_counter st) in
  exists n,
    (1 <= n <= 3)%nat /\
    posted (request_effects post st) = seq 0 n /\
    (forall attempt, (S attempt < n)%nat -> answered (post id) attempt = false) /\
    ((n < 3)%nat -> answered (post id) (n - 1) = true).
Proof.
  cbv zeta. unfold request_effects, answered.
  set (id := S (request_counter st)). set (p := post id).
  assert (Skip : forall es, posted ((if (id mod 10 =? 0)%nat then [Sleep 100] else []) ++ es)
                            = posted es).
  { intros es. destruct (id mod 10 =? 0)%nat; reflexivity. }
  rewrite Skip. cbn [seq attempt_effects Nat.ltb Nat.leb].
  destruct (p 0%nat) as [b0| |] eqn:E0.
  - exists 1%nat. cbn. repeat split; try lia. intros _. rewrite E0. reflexivity.
  - destruct (p 1%nat) as [b1| |] eqn:E1.
    + exists 2%nat. cbn. repeat split; try lia.
      * intros [|a] Ha; [rewrite E0; reflexivity|lia].
      * intros _. rewrite E1. reflexivity.
    + exists 3%nat. destruct (p 2%nat) eqn:E2; cbn; repeat split; try lia;
        intros [|[|a]] Ha; try lia; rewrite ?E0, ?E1; reflexivity.
    + exists 3%nat. destruct (p 2%nat) eqn:E2; cbn; repeat split; try lia;
        intros [|[|a]] Ha; try lia; rewrite ?E0, ?E1; reflexivity.
  - destruct (p 1%nat) as [b1| |] eqn:E1.
    + exists 2%nat. cbn. repeat split; try lia.
      * intros [|a] Ha; [rewrite E0; reflexivity|lia].
      * intros _. rewrite E1. reflexivity.
    + exists 3%nat. destruct (p 2%nat) eqn:E2; cbn; repeat split; try lia;
        intros [|[|a]] Ha; try lia; rewrite ?E0, ?E1; reflexivity.
    + exists 3%nat. destruct (p 2%nat) eqn:E2; cbn; repeat split; try lia;
        intros [|[|a]] Ha; try lia; rewrite ?E0, ?E1; reflexivity.
Qed.

(** X3.  The time one call sleeps: 0.1 s when its request number is a
    multiple of ten, 1 s when the first attempt ends in an exception, 2 s
    when the first attempt is not answered with status 200 and the second
    ends in an exception, and nothing else.  A status other than 200 and a
    failed third attempt cost no wait, so a call never sleeps more than
    3.1 s, and one whose attempts all come back with a status sleeps at most
    0.1 s. *)
Theorem make_rpc_request_sleep (A : Type)
  (post : nat -> nat -> Attempt (Response A)) (st : ClientState) :
  let id := S (request_counter st) in
  let throttle := if (id mod 10 =? 0)%nat then 100%Z else 0%Z in
  let first := if raised (post id) 0 then 1000%Z else 0%Z in
  let second :=
    if negb (answered (post id) 0) && raised (post id) 1 then 2000%Z else 0%Z in
  total_sleep (request_effects post st) = (throttle + first + second)%Z /\
  (total_sleep (request_effects post st) <= 3100)%Z /\
  ((forall attempt, (attempt < 3)%nat -> raised (post id) attempt = false) ->
   total_sleep (request_effects post st) = throttle).
Proof.
  cbv zeta. unfold request_effects, answered, raised.
  set (id := S (request_counter st)). set (p := post id).
  assert (Skip : forall es,
            total_sleep ((if (id mod 10 =? 0)%nat then [Sleep 100] else []) ++ es)
            = ((if (id mod 10 =? 0)%nat then 100 else 0) + total_sleep es)%Z).
  { intros es. destruct (id mod 10 =? 0)%nat; cbn [app total_sleep]; lia. }
  rewrite Skip. cbn [seq attempt_effects Nat.ltb Nat.leb].
  assert (B : ((if (id mod 10 =? 0)%nat then 100 else 0) <= 100)%Z)
    by (destruct (id mod 10 =? 0)%nat; lia).
  set (throttle := if (id mod 10 =? 0)%nat then 100%Z else 0%Z) in *.
  clearbody throttle.
  split; [|split].
  - destruct (p 0%nat), (p 1%nat), (p 2%nat); cbn; lia.
  - destruct (p 0%nat), (p 1%nat), (p 2%nat); cbn; lia.
  - intros H.
    pose proof (H 0%nat ltac:(lia)) as H0. pose proof (H 1%nat ltac:(lia)) as H1.
    destruct (p 0%nat); try discriminate; destruct (p 1%nat); try discriminate;
      destruct (p 2%nat); cbn; lia.
Qed.

Lemma make_rpc_request_sleep_witness :
  total_sleep (request_effects (post_getSlot (one_block None [])) fresh) = 0%Z.
Proof.
  refine (proj2 (proj2 (make_rpc_request_sleep Z (post_getSlot (one_block None [])) fresh)) _).
  intros attempt _. reflexivity.
Defined.

(** X4.  [get_block_transactions] makes one [getBlock] request.  A request
    that fails three times, an empty envelope and an envelope without a
    result all count as a block without transactions, and so does a block
    object without a [transactions] member; a [null] result is the one
    answer that makes it raise, and what it raises is [AttributeError]. *)
Theorem get_block_transactions_edges (endpoint : Endpoint) (slot : Z) (st : ClientState) :
  let response := answer (post_getBlock endpoint slot) (S (request_counter st)) in
  snd (get_block_transactions endpoint slot st) = after st [GetBlock slot] /\
  (forall e,
     fst (get_block_transactions endpoint slot st) = Raise e <->
     e = AttributeError /\ exists r, response = Some r /\ result r = Some None) /\
  (response = None \/ (exists r, response = Some r /\ result r = None) ->
   fst (get_block_transactions endpoint slot st) = Ok []) /\
  (forall r block,
     response = Some r -> result r = Some (Some block) ->
     fst (get_block_transactions endpoint slot st)
     = Ok (match transactions block with Some txs => txs | None => [] end)).
Proof.
  cbv zeta. unfold get_block_transactions.
  rewrite ResolverFacts.make_rpc_request_eq. cbn [fst snd].
  set (response := answer _ _). split; [reflexivity|]. split; [|split].
  - intros e. unfold truthy, result_of.
    destruct response as [[[[block|]|] err]|]; cbn.
    + split; [discriminate|]. intros (_ & r & [= <-] & H). discriminate.
    + split; [intros [= <-]; split; [reflexivity|]; eexists; split; reflexivity|].
      intros (-> & _). reflexivity.
    + destruct err; (split; [discriminate|]);
        intros (_ & r & [= <-] & H); discriminate.
    + split; [discriminate|]. intros (_ & r & H & _). discriminate.
  - intros [->|(r & -> & Hr)]; [reflexivity|].
    unfold truthy, result_of. rewrite Hr. destruct (error r); reflexivity.
  - intros r block -> Hr. unfold truthy, result_of. rewrite Hr. reflexivity.
Qed.

Lemma get_block_transactions_edges_witness :
  fst (get_block_transactions unreachable 100 fresh) = Ok [].
Proof.
  refine (proj1 (proj2 (proj2 (get_block_transactions_edges unreachable 100 fresh))) _).
  left. reflexivity.
Defined.

(* ------------------------------------------------------------------------- *)
(** * The balance-delta extractor: further statements *)

Module ExtractorMore.

Lemma leb_trans x y z :
  PrimFloat.leb x y = true -> PrimFloat.leb y z = true -> PrimFloat.leb x z = true.
Proof.
  rewrite !FloatFacts.leb_rank. intros (Nx & Ny & H1) (_ & Nz & H2).
  split; [exact Nx|]. split; [exact Nz|].
  destruct H1 as [H1|H1], H2 as [H2|H2].
  - left. eapply FloatFacts.lex_trans; eauto.
  - left. rewrite <- H2. exact H1.
  - left. rewrite H1. exact H2.
  - right. congruence.
Qed.

Lemma div_1e9_raises (z : Z) (e : exn) : div_1e9 z = Raise e -> e = OverflowError.
Proof.
  unfold div_1e9, float_of_int.
  destruct (PrimFloat.is_infinity _); cbn [bind]; [intros [= <-]; reflexivity|discriminate].
Qed.

Section Loop.
Variable self : TransactionScanner.
Variables (pre post : list Z) (keys : list string).

Let loop := analyze_loop self pre post keys.

Lemma entry_at_raises (i : nat) (e : exn) :
  (i < List.length pre)%nat -> (i < List.length post)%nat ->
  entry_at pre post i = Raise e -> e = OverflowError.
Proof.
  intros Hp Hq. unfold entry_at, item.
  destruct (nth_error pre i) as [p|] eqn:Ep; [|apply nth_error_None in Ep; lia].
  cbn [bind]. destruct (div_1e9 p) as [x|e1] eqn:Dp; cbn [bind];
    [|intros [= <-]; eapply div_1e9_raises; eauto].
  destruct (nth_error post i) as [q|] eqn:Eq; [|apply nth_error_None in Eq; lia].
  cbn [bind]. destruct (div_1e9 q) as [y|e2] eqn:Dq; cbn [bind];
    [discriminate|intros [= <-]; eapply div_1e9_raises; eauto].
Qed.

Lemma loop_app (l1 l2 : list nat) : forall changes,
  loop (l1 ++ l2) changes = Py.bind (loop l1 changes) (loop l2).
Proof.
  induction l1 as [|i l1 IH]; intros changes; [reflexivity|].
  unfold loop. cbn [app analyze_loop]. fold loop.
  destruct (_ || _); [apply IH|].
  destruct (entry_at pre post i) as [ea|]; cbn [bind]; [|reflexivity].
  destruct (significant self (change ea)); [|apply IH].
  destruct (item keys i); cbn [bind]; [apply IH|reflexivity].
Qed.

Lemma loop_skipped (l : list nat) (changes : dict BalanceChange) :
  (forall i, In i l -> (List.length post <= i)%nat \/ (List.length keys <= i)%nat) ->
  loop l changes = Ok changes.
Proof.
  induction l as [|i l IH]; intros H; [reflexivity|].
  unfold loop. cbn [analyze_loop]. fold loop.
  assert (G : (List.length post <=? i)%nat || (List.length keys <=? i)%nat = true).
  { apply orb_true_iff. destruct (H i (or_introl eq_refl)) as [G|G];
      [left|right]; apply Nat.leb_le; exact G. }
  rewrite G. apply IH. intros j Hj. apply H. right. exact Hj.
Qed.

Lemma loop_raises (l : list nat) : forall changes e,
  (forall i, In i l -> (i < List.length pre)%nat) ->
  loop l changes = Raise e -> e = OverflowError.
Proof.
  induction l as [|i l IH]; intros changes e Hin; [discriminate|].
  unfold loop. cbn [analyze_loop]. fold loop.
  assert (Hl : forall j, In j l -> (j < List.length pre)%nat)
    by (intros j Hj; apply Hin; right; exact Hj).
  destruct (_ || _) eqn:G; [apply IH; exact Hl|].
  apply orb_false_iff in G. destruct G as [G1 G2]. apply Nat.leb_gt in G1, G2.
  destruct (entry_at pre post i) as [ea|e1] eqn:Ea; cbn [bind].
  - destruct (significant self (change ea)); [|apply IH; exact Hl].
    destruct (nth_error keys i) as [k|] eqn:K; [|apply nth_error_None in K; lia].
    unfold item. rewrite K. cbn [bind]. apply IH. exact Hl.
  - intros [= <-]. apply (entry_at_raises i); auto. apply Hin. left. reflexivity.
Qed.

Lemma loop_ok_converts (l : list nat) : forall changes changes' i,
  loop l changes = Ok changes' ->
  In i l ->
  (i < List.length post)%nat -> (i < List.length keys)%nat ->
  exists e, entry_at pre post i = Ok e.
Proof.
  induction l as [|j l IH]; intros changes changes' i Hrun Hin Hq Hk; [destruct Hin|].
  unfold loop in Hrun. cbn [analyze_loop] in Hrun. fold loop in Hrun.
  destruct Hin as [->|Hin].
  - assert (G : (List.length post <=? i)%nat || (List.length keys <=? i)%nat = false).
    { apply orb_false_iff. split; apply Nat.leb_gt; assumption. }
    rewrite G in Hrun. destruct (entry_at pre post i) as [ea|]; [eauto|discriminate].
  - destruct (_ || _); [eapply IH; eauto|].
    destruct (entry_at pre post j) as [ea|]; cbn [bind] in Hrun; [|discriminate].
    destruct (significant self (change ea)); [|eapply IH; eauto].
    destruct (item keys j); cbn [bind] in Hrun; [eapply IH; eauto|discriminate].
Qed.
End Loop.

(** Two runs of the loop agree when, at every index visited, they make the
    same decision to skip and read the same values. *)
Lemma loop_ext (self : TransactionScanner)
  (pre post pre' post' : list Z) (keys keys' : list string) (l : list nat) :
  (forall i, In i l ->
     ((List.length post <=? i)%nat || (List.length keys <=? i)%nat
      = (List.length post' <=? i)%nat || (List.length keys' <=? i)%nat) /\
     entry_at pre post i = entry_at pre' post' i /\
     item keys i = item keys' i) ->
  forall changes,
    analyze_loop self pre post keys l changes
    = analyze_loop self pre' post' keys' l changes.
Proof.
  induction l as [|i l IH]; intros H changes; [reflexivity|].
  cbn [analyze_loop].
  destruct (H i (or_introl eq_refl)) as (G & E & K). rewrite <- G, <- E, <- K.
  assert (Hl : forall j, In j l ->
     ((List.length post <=? j)%nat || (List.length keys <=? j)%nat
      = (List.length post' <=? j)%nat || (List.length keys' <=? j)%nat) /\
     entry_at pre post j = entry_at pre' post' j /\
     item keys j = item keys' j) by (intros j Hj; apply H; right; exact Hj).
  destruct (_ || _); [apply IH; exact Hl|].
  destruct (entry_at pre post i) as [ea|]; cbn [bind]; [|reflexivity].
  destruct (significant self (change ea)); [|apply IH; exact Hl].
  destruct (item keys i); cbn [bind]; [apply IH; exact Hl|reflexivity].
Qed.

Lemma analyze_ok_convertible (self : TransactionScanner)
  (pre post : list Z) (keys : list string) (changes : dict BalanceChange) :
  _analyze_balance_changes self pre post keys = Ok changes ->
  convertible pre post keys.
Proof.
  intros Hrun i Hp Hq Hk.
  apply (loop_ok_converts self pre post keys (seq 0 (List.length pre)) [] changes i Hrun);
    [|assumption|assumption].
  apply in_seq. lia.
Qed.

End ExtractorMore.

(** X5.  What the extractor's output always satisfies: its keys are distinct
    and taken from the account keys, there are no more of them than the
    shortest of the three input sequences is long, and every entry has a
    change of magnitude at least the threshold that is the difference of its
    post-balance and pre-balance, both read at one index where the account
    keys carry the entry's key. *)
Theorem extractor_output_invariant
  (self : TransactionScanner) (pre post : list Z) (keys : list string)
  (changes : dict BalanceChange) :
  _analyze_balance_changes self pre post keys = Ok changes ->
  NoDup (Py.keys changes) /\
  (List.length changes
   <= Nat.min (List.length pre) (Nat.min (List.length post) (List.length keys)))%nat /\
  forall k e,
    In (k, e) changes ->
    In k keys /\
    PrimFloat.leb (min_amount_threshold (client self)) (PrimFloat.abs (change e)) = true /\
    change e = PrimFloat.sub (post_balance e) (pre_balance e) /\
    exists i p q,
      nth_error keys i = Some k /\
      nth_error pre i = Some p /\ nth_error post i = Some q /\
      div_1e9 p = Ok (pre_balance e) /\ div_1e9 q = Ok (post_balance e).
Proof.
  intros Hrun.
  destruct (analyze_holds_last self pre post keys changes Hrun) as (ND & Hlook).
  assert (Q : forall k e, In (k, e) changes ->
            exists i, qualifies self pre post keys i k e).
  { intros k e Hin. apply (DictFacts.in_lookup k e changes ND) in Hin.
    apply Hlook in Hin. destruct Hin as (i & Hq & _). eauto. }
  split; [exact ND|]. split.
  - set (n := Nat.min (List.length pre) (Nat.min (List.length post) (List.length keys))).
    assert (Hincl : incl (Py.keys changes) (firstn n keys)).
    { intros k Hk. apply DictFacts.in_keys_lookup in Hk. destruct Hk as (e & He).
      apply Hlook in He. destruct He as (i & (H1 & H2 & H3 & _) & _).
      apply (nth_error_In _ i). rewrite nth_error_firstn.
      assert (Hi : (i < List.length keys)%nat) by (apply nth_error_Some; congruence).
      assert (L : (i <? n)%nat = true) by (apply Nat.ltb_lt; unfold n; lia).
      rewrite L. exact H3. }
    pose proof (NoDup_incl_length ND Hincl) as B.
    unfold Py.keys in B. rewrite length_map in B.
    pose proof (firstn_le_length n keys). lia.
  - intros k e Hin. destruct (Q k e Hin) as (i & H1 & H2 & H3 & H4 & H5).
    destruct (entry_at_inv pre post i e H4) as (p & q & Hp & Hq & Dp & Dq & Hc).
    split; [eapply nth_error_In; eauto|]. split; [exact H5|]. split; [exact Hc|].
    exists i, p, q. auto.
Qed.

Lemma extractor_output_invariant_witness :
  NoDup (Py.keys pay_changes) /\
  (List.length pay_changes
   <= Nat.min (List.length pay_pre)
              (Nat.min (List.length pay_post) (List.length pay_keys)))%nat /\
  forall k e,
    In (k, e) pay_changes ->
    In k pay_keys /\
    PrimFloat.leb (min_amount_threshold (client (scanner 0.001)))
                  (PrimFloat.abs (change e)) = true /\
    change e = PrimFloat.sub (post_balance e) (pre_balance e) /\
    exists i p q,
      nth_error pay_keys i = Some k /\
      nth_error pay_pre i = Some p /\ nth_error pay_post i = Some q /\
      div_1e9 p = Ok (pre_balance e) /\ div_1e9 q = Ok (post_balance e).
Proof.
  apply (extractor_output_invariant (scanner 0.001) pay_pre pay_post pay_keys pay_changes).
  vm_compute. reflexivity.
Defined.

(** X6.  Indices beyond the shortest of the three sequences are never read:
    the extractor gives the same result, and raises the same exception if it
    raises, on the three sequences cut to their common length. *)
Theorem extractor_ignores_excess
  (self : TransactionScanner) (pre post : list Z) (keys : list string) :
  let n := Nat.min (List.length pre) (Nat.min (List.length post) (List.length keys)) in
  _analyze_balance_changes self pre post keys
  = _analyze_balance_changes self (firstn n pre) (firstn n post) (firstn n keys).
Proof.
  cbv zeta.
  set (n := Nat.min (List.length pre) (Nat.min (List.length post) (List.length keys))).
  unfold _analyze_balance_changes.
  assert (Lp : List.length (firstn n pre) = n) by (rewrite length_firstn; unfold n; lia).
  assert (Lq : List.length (firstn n post) = n) by (rewrite length_firstn; unfold n; lia).
  assert (Lk : List.length (firstn n keys) = n) by (rewrite length_firstn; unfold n; lia).
  rewrite Lp.
  replace (List.length pre) with (n + (List.length pre - n))%nat by (unfold n; lia).
  rewrite seq_app, ExtractorMore.loop_app. cbn [Nat.add].
  assert (Same : analyze_loop self pre post keys (seq 0 n) []
                 = analyze_loop self (firstn n pre) (firstn n post) (firstn n keys)
                                (seq 0 n) []).
  { apply ExtractorMore.loop_ext. intros i Hi. apply in_seq in Hi.
    assert (Hlt : (i <? n)%nat = true) by (apply Nat.ltb_lt; lia).
    rewrite Lq, Lk. split; [|split].
    - assert (G1 : (List.length post <=? i)%nat = false)
        by (apply Nat.leb_gt; unfold n in Hi; lia).
      assert (G2 : (List.length keys <=? i)%nat = false)
        by (apply Nat.leb_gt; unfold n in Hi; lia).
      assert (G3 : (n <=? i)%nat = false) by (apply Nat.leb_gt; lia).
      rewrite G1, G2, G3. reflexivity.
    - unfold entry_at, item. rewrite !nth_error_firstn, Hlt. reflexivity.
    - unfold item. rewrite nth_error_firstn, Hlt. reflexivity. }
  rewrite <- Same.
  destruct (analyze_loop self pre post keys (seq 0 n) []) as [changes|e];
    cbn [bind]; [|reflexivity].
  apply ExtractorMore.loop_skipped. intros i Hi. apply in_seq in Hi. unfold n in Hi. lia.
Qed.

(** X7.  The extractor returns exactly when every balance it reads (those at
    indices below all three lengths) converts to a float; otherwise it
    raises, and the only exception it raises is [OverflowError]. *)
Theorem extractor_returns_iff_convertible
  (self : TransactionScanner) (pre post : list Z) (keys : list string) :
  ((exists changes, _analyze_balance_changes self pre post keys = Ok changes)
   <-> convertible pre post keys) /\
  (forall e, _analyze_balance_changes self pre post keys = Raise e -> e = OverflowError).
Proof.
  split; [split|].
  - intros (changes & Hrun).
    exact (ExtractorMore.analyze_ok_convertible self pre post keys changes Hrun).
  - apply analyze_returns.
  - intros e Hrun.
    apply (ExtractorMore.loop_raises self pre post keys (seq 0 (List.length pre)) [] e);
      [|exact Hrun].
    intros i Hi. apply in_seq in Hi. lia.
Qed.

(** X8.  Raising the threshold can only remove keys: when the extractor
    returns under a threshold, it returns under every threshold that is not
    larger, with at least the same keys. *)
Theorem extractor_threshold_monotone
  (lower higher : TransactionScanner) (pre post : list Z) (keys : list string)
  (changes : dict BalanceChange) :
  PrimFloat.leb (min_amount_threshold (client lower))
                (min_amount_threshold (client higher)) = true ->
  _analyze_balance_changes higher pre post keys = Ok changes ->
  exists more,
    _analyze_balance_changes lower pre post keys = Ok more /\
    incl (Py.keys changes) (Py.keys more).
Proof.
  intros Hle Hrun.
  pose proof (ExtractorMore.analyze_ok_convertible higher pre post keys changes Hrun)
    as Conv.
  destruct (analyze_returns lower pre post keys Conv) as (more & Hmore).
  exists more. split; [exact Hmore|].
  destruct (analyze_holds_last higher pre post keys changes Hrun) as (_ & Hlook).
  destruct (loop_keeps_order lower pre post keys (List.length pre) 0 [] more)
    as (Hall & _); [lia| |exact Hmore|].
  { split; [|split].
    - intros j k e Hj. lia.
    - intros k [].
    - intros k1 k2 (l1 & l2 & l3 & H). destruct l1; discriminate. }
  intros k Hk. apply DictFacts.in_keys_lookup in Hk. destruct Hk as (e & He).
  apply Hlook in He. destruct He as (i & (H1 & H2 & H3 & H4 & H5) & _).
  apply (Hall i k e); [cbn; lia|].
  repeat split; try assumption.
  unfold significant in *. eapply ExtractorMore.leb_trans; eauto.
Qed.

Lemma extractor_threshold_monotone_witness :
  exists more,
    _analyze_balance_changes (scanner 0.001) pay_pre pay_post pay_keys = Ok more /\
    incl (Py.keys pay_changes) (Py.keys more).
Proof.
  apply (extractor_threshold_monotone (scanner 0.001) (scanner 1) pay_pre pay_post pay_keys
           pay_changes).
  - vm_compute. reflexivity.
  - vm_compute. reflexivity.
Defined.

(* ------------------------------------------------------------------------- *)
(** * The matcher: further statements *)

Module MatcherMore.

(** The rank of [abs x] is never below that of zero. *)
Lemma frank_abs_nonneg_any x :
  lex_lt (frank (PrimFloat.abs x)) (0, 0, 0)%Z -> False.
Proof.
  unfold frank. rewrite FloatAxioms.abs_spec.
  destruct (Prim2SF x) as [s|s| |s m e]; cbv [SFabs rank lex_lt]; lia.
Qed.

Lemma frank_zero : frank 0 = (0, 0, 0)%Z.
Proof. reflexivity. Qed.

Lemma number_zero : number 0.
Proof. reflexivity. Qed.

(** A float of magnitude at least a positive threshold is either negative or
    positive, and not both. *)
Lemma sign_of_significant th c :
  PrimFloat.ltb 0 th = true ->
  PrimFloat.leb th (PrimFloat.abs c) = true ->
  (PrimFloat.ltb c 0 = true /\ PrimFloat.ltb 0 c = false) \/
  (PrimFloat.ltb 0 c = true /\ PrimFloat.ltb c 0 = false).
Proof.
  intros Hpos Hsig.
  apply FloatFacts.ltb_rank in Hpos. destruct Hpos as (_ & Nth & Lth).
  apply FloatFacts.leb_rank in Hsig. destruct Hsig as (_ & Nabs & Labs).
  rewrite frank_zero in Lth.
  assert (Pos : lex_lt (0, 0, 0)%Z (frank (PrimFloat.abs c))).
  { destruct Labs as [L|L]; [eapply FloatFacts.lex_trans; eauto|rewrite <- L; exact Lth]. }
  assert (Nc : number c) by (apply FloatFacts.number_abs; exact Nabs).
  assert (Cases : lex_lt (frank c) (0, 0, 0)%Z \/ lex_lt (0, 0, 0)%Z (frank c)).
  { clear - Pos Nc. unfold frank, number in *. rewrite FloatAxioms.abs_spec in Pos.
    destruct (Prim2SF c) as [s|s| |s m e]; try discriminate;
      destruct s; cbv [SFabs rank lex_lt] in *; lia. }
  destruct Cases as [Neg|Pos'].
  - left. split.
    + apply FloatFacts.ltb_rank. rewrite frank_zero. auto using number_zero.
    + destruct (PrimFloat.ltb 0 c) eqn:E; [|reflexivity].
      apply FloatFacts.ltb_rank in E. destruct E as (_ & _ & E). rewrite frank_zero in E.
      exfalso. eapply FloatFacts.lex_irrefl, FloatFacts.lex_trans; eauto.
  - right. split.
    + apply FloatFacts.ltb_rank. rewrite frank_zero. auto using number_zero.
    + destruct (PrimFloat.ltb c 0) eqn:E; [|reflexivity].
      apply FloatFacts.ltb_rank in E. destruct E as (_ & _ & E). rewrite frank_zero in E.
      exfalso. eapply FloatFacts.lex_irrefl, FloatFacts.lex_trans; eauto.
Qed.

Lemma number_sub_r x y : number (PrimFloat.sub x y) -> number y.
Proof.
  unfold number. rewrite FloatAxioms.sub_spec. unfold SF64sub.
  destruct (Prim2SF y); try reflexivity.
  destruct (Prim2SF x); cbn; auto.
Qed.

(** No magnitude is within a tolerance that is negative or a NaN, or within
    any tolerance of a target that is a NaN. *)
Lemma never_within T tol t :
  PrimFloat.ltb tol 0 = true \/ PrimFloat.eqb tol tol = false \/ PrimFloat.eqb T T = false ->
  within_tolerance T tol t = false.
Proof.
  intros H. unfold within_tolerance. cbv zeta.
  destruct (PrimFloat.leb _ tol) eqn:E; [|reflexivity]. exfalso.
  apply FloatFacts.leb_rank in E. destruct E as (Nd & Ntol & L).
  destruct H as [H|[H|H]].
  - apply FloatFacts.ltb_rank in H. destruct H as (_ & _ & H). rewrite frank_zero in H.
    apply (frank_abs_nonneg_any (PrimFloat.sub (PrimFloat.abs (t_change t)) T)).
    destruct L as [L|L]; [eapply FloatFacts.lex_trans; eauto|rewrite L; exact H].
  - assert (PrimFloat.eqb tol tol = true) by (apply FloatFacts.eqb_rank; auto).
    congruence.
  - apply (proj1 (FloatFacts.number_abs _)) in Nd.
    apply number_sub_r in Nd.
    assert (PrimFloat.eqb T T = true) by (apply FloatFacts.eqb_rank; auto).
    congruence.
Qed.

(** The candidates are the entries of the dictionary, one for one. *)
Lemma candidates_of_entries (self : TransactionScanner) (d : dict BalanceChange) :
  (forall k e, In (k, e) d -> significant self (change e) = true) ->
  significant_transfers_of self d
  = map (fun '(k, e) => {| account := k; t_change := change e; details := e |}) d.
Proof.
  induction d as [|[k e] d IH]; intros All; [reflexivity|].
  change (significant_transfers_of self ((k, e) :: d))
    with ((if significant self (change e)
           then [{| account := k; t_change := change e; details := e |}]
           else []) ++ significant_transfers_of self d).
  rewrite (All k e) by (left; reflexivity). cbn [app map]. f_equal.
  apply IH. intros k' e' Hin. apply (All k' e'). right. exact Hin.
Qed.

Lemma entries_significant (self : TransactionScanner) (pre post : list Z)
  (keys : list string) (changes : dict BalanceChange) :
  _analyze_balance_changes self pre post keys = Ok changes ->
  forall k e, In (k, e) changes -> significant self (change e) = true.
Proof.
  intros Hrun k e Hin.
  destruct (analyze_holds_last self pre post keys changes Hrun) as (ND & Hlook).
  apply (DictFacts.in_lookup k e changes ND) in Hin.
  apply Hlook in Hin. destruct Hin as (i & (_ & _ & _ & _ & Hs) & _). exact Hs.
Qed.

Lemma candidate_is_entry (self : TransactionScanner) (d : dict BalanceChange) (t : Transfer) :
  In t (significant_transfers_of self d) ->
  In (account t, details t) d /\ t_change t = change (details t) /\
  significant self (t_change t) = true.
Proof.
  unfold significant_transfers_of. rewrite in_flat_map.
  intros ([k e] & Hin & Ht).
  destruct (significant self (change e)) eqn:S; [|destruct Ht].
  destruct Ht as [<-|[]]. cbn. auto.
Qed.

(** What [_parse_transaction] returned, taken apart. *)
Lemma parse_some_inv (self : TransactionScanner) (tx : Tx) (T tol : float) (r : Parsed) :
  _parse_transaction self tx T tol = Some r ->
  exists meta best,
    parse_prelude self tx = Ok (Some (meta, p_balance_changes r)) /\
    best_match_of (matches_of T tol (significant_transfers_of self (p_balance_changes r)))
      = Some best /\
    build_result meta (p_balance_changes r) best
      (counterparty_of self best (significant_transfers_of self (p_balance_changes r)))
      = Ok r.
Proof.
  intros H. destruct (parse_prelude self tx) as [[[meta bc]|]|] eqn:P.
  - rewrite (MatcherFacts.parse_transaction_prelude self tx T tol meta bc P) in H.
    destruct (best_match_of _) as [best|] eqn:B; [|discriminate].
    destruct (build_result _ _ _ _) as [r'|] eqn:R; [|discriminate].
    injection H as <-. pose proof (MatcherFacts.build_result_inv _ _ _ _ _ R) as I.
    destruct I as (_ & _ & _ & Hbc & _). subst bc. exists meta, best. auto.
  - unfold _parse_transaction, parse_try in H. rewrite P in H. discriminate.
  - unfold _parse_transaction, parse_try in H. rewrite P in H. discriminate.
Qed.

Lemma max_from_in {A : Type} (key : A -> float) (xs : list A) : forall best,
  In (max_from key best xs) (best :: xs).
Proof.
  induction xs as [|x xs IH]; intros best; cbn [max_from]; [left; reflexivity|].
  destruct (PrimFloat.ltb (key best) (key x)).
  - right. apply IH.
  - destruct (IH best) as [H|H]; [left; exact H|right; right; exact H].
Qed.

Lemma best_match_in (ms : list Transfer) (best : Transfer) :
  best_match_of ms = Some best -> In best ms.
Proof.
  unfold best_match_of, max_by. destruct ms as [|m ms]; [discriminate|].
  intros [= <-]. apply max_from_in.
Qed.

Lemma entry_key_listed (self : TransactionScanner) (pre post : list Z)
  (keys : list string) (changes : dict BalanceChange) :
  _analyze_balance_changes self pre post keys = Ok changes ->
  forall k e, In (k, e) changes -> In k keys.
Proof.
  intros Hrun k e Hin.
  destruct (analyze_holds_last self pre post keys changes Hrun) as (ND & Hlook).
  apply (DictFacts.in_lookup k e changes ND) in Hin.
  apply Hlook in Hin. destruct Hin as (i & (_ & _ & Hk & _) & _).
  eapply nth_error_In; eauto.
Qed.

Lemma matches_none (T tol : float) (cands : list Transfer) :
  (forall t, within_tolerance T tol t = false) -> matches_of T tol cands = [].
Proof.
  intros H. unfold matches_of. induction cands as [|c cands IH]; [reflexivity|].
  cbn [filter]. rewrite H. exact IH.
Qed.

Lemma counterparty_differs (self : TransactionScanner) (best c : Transfer)
  (cands : list Transfer) :
  counterparty_of self best cands = Some c ->
  In c cands /\ account c <> account best.
Proof.
  unfold counterparty_of. intros H. pose proof (find_some _ _ H) as (Hin & Hoff).
  split; [exact Hin|]. unfold offsets in Hoff.
  apply andb_prop in Hoff. destruct Hoff as (Hne & _).
  apply negb_true_iff in Hne. apply String.eqb_neq in Hne. exact Hne.
Qed.

End MatcherMore.

(** X9.  The threshold test of the candidate loop (line 172) removes nothing:
    the dictionary that the extractor returned holds only entries that pass
    it, so the candidates of a transaction are the entries of its
    balance-change dictionary, one for one and in the same order. *)
Theorem candidate_filter_keeps_every_entry
  (self : TransactionScanner) (tx : Tx) (meta : option Meta) (bc : dict BalanceChange) :
  parse_prelude self tx = Ok (Some (meta, bc)) ->
  significant_transfers_of self bc
  = map (fun '(k, e) => {| account := k; t_change := change e; details := e |}) bc.
Proof.
  intros Hpre. apply MatcherFacts.parse_prelude_inv in Hpre. destruct Hpre as (_ & Hrun).
  apply MatcherMore.candidates_of_entries.
  exact (MatcherMore.entries_significant self _ _ _ bc Hrun).
Qed.

Lemma candidate_filter_keeps_every_entry_witness :
  significant_transfers_of (scanner 0.001) pay_changes
  = map (fun '(k, e) => {| account := k; t_change := change e; details := e |})
        pay_changes.
Proof.
  apply (candidate_filter_keeps_every_entry (scanner 0.001) pay_tx pay_meta pay_changes).
  vm_compute. reflexivity.
Defined.

(** X10.  What the matcher returns is sound.  The amount is, as the code
    computes the difference, within the tolerance of the target; it is at
    least the threshold; it is the magnitude of the change of an account of
    the returned balance changes.  The balance changes are what the extractor
    returns on the transaction's three sequences.  A sender or receiver, when
    given, is a key of the balance changes and one of the transaction's
    account keys.  The fee is the transaction's fee divided by 1e9. *)
Theorem parsed_result_sound
  (self : TransactionScanner) (tx : Tx) (T tol : float) (r : Parsed) :
  _parse_transaction self tx T tol = Some r ->
  PrimFloat.leb (PrimFloat.abs (PrimFloat.sub (p_amount r) T)) tol = true /\
  PrimFloat.leb (min_amount_threshold (client self)) (p_amount r) = true /\
  (exists k e, In (k, e) (p_balance_changes r) /\ p_amount r = PrimFloat.abs (change e)) /\
  _analyze_balance_changes self (pre_balances_of tx) (post_balances_of tx)
    (account_keys_list tx) = Ok (p_balance_changes r) /\
  (forall a,
     p_sender r = Some a \/ p_receiver r = Some a ->
     In a (keys (p_balance_changes r)) /\ In a (account_keys_list tx)) /\
  fee_is (meta_of tx) (p_fee r).
Proof.
  intros H. destruct (MatcherMore.parse_some_inv self tx T tol r H)
    as (meta & best & Hpre & Hbest & Hres).
  apply MatcherFacts.parse_prelude_inv in Hpre. destruct Hpre as (-> & Hrun).
  apply MatcherFacts.build_result_inv in Hres.
  destruct Hres as (Ha & Hs & Hr & _ & Hfee).
  apply MatcherMore.best_match_in in Hbest. apply filter_In in Hbest.
  destruct Hbest as (Hcand & Hwithin).
  destruct (MatcherMore.candidate_is_entry self _ best Hcand) as (Hentry & Hchange & Hsig).
  assert (Key : forall t, In t (significant_transfers_of self (p_balance_changes r)) ->
                In (account t) (keys (p_balance_changes r)) /\
                In (account t) (account_keys_list tx)).
  { intros t Ht. destruct (MatcherMore.candidate_is_entry self _ t Ht) as (He & _).
    split.
    - unfold keys. apply in_map_iff. exists (account t, details t). auto.
    - eapply MatcherMore.entry_key_listed; eauto. }
  split; [rewrite Ha; exact Hwithin|].
  split; [rewrite Ha; exact Hsig|].
  split; [exists (account best), (details best); rewrite Ha, Hchange; auto|].
  split; [exact Hrun|].
  split; [|exact Hfee].
  intros a Hrole.
  assert (Who : a = account best \/
                exists c, counterparty_of self best
                            (significant_transfers_of self (p_balance_changes r)) = Some c /\
                          a = account c).
  { destruct Hrole as [E|E]; [rewrite Hs in E; unfold sender_of in E
                             |rewrite Hr in E; unfold receiver_of in E];
      destruct (PrimFloat.ltb _ _);
      try (injection E as <-; left; reflexivity);
      destruct (counterparty_of _ _ _) as [c|]; try discriminate;
      injection E as <-; right; eauto. }
  destruct Who as [->|(c & Hc & ->)].
  - apply Key. exact Hcand.
  - apply Key. apply (MatcherMore.counterparty_differs self best c _ Hc).
Qed.

Lemma parsed_result_sound_witness :
  exists r,
    _parse_transaction (scanner 0.001) pay_tx 5 0.01 = Some r /\
    PrimFloat.leb (PrimFloat.abs (PrimFloat.sub (p_amount r) 5)) 0.01 = true /\
    PrimFloat.leb (min_amount_threshold (client (scanner 0.001))) (p_amount r) = true /\
    (exists k e, In (k, e) (p_balance_changes r) /\
                 p_amount r = PrimFloat.abs (change e)) /\
    _analyze_balance_changes (scanner 0.001) (pre_balances_of pay_tx)
      (post_balances_of pay_tx) (account_keys_list pay_tx) = Ok (p_balance_changes r) /\
    (forall a,
       p_sender r = Some a \/ p_receiver r = Some a ->
       In a (keys (p_balance_changes r)) /\ In a (account_keys_list pay_tx)) /\
    fee_is (meta_of pay_tx) (p_fee r).
Proof.
  eexists. split; [vm_compute; reflexivity|].
  apply (parsed_result_sound (scanner 0.001) pay_tx 5 0.01).
  vm_compute. reflexivity.
Defined.

(** X11.  With a threshold above zero the account of the matched change
    takes exactly one role: the change is negative and the account is the
    sender, or the change is positive and the account is the receiver, and
    in either case the other role, if filled, goes to a different account.
    A returned sender and receiver are therefore never the same account. *)
Theorem matched_account_has_one_role
  (self : TransactionScanner) (tx : Tx) (T tol : float) (r : Parsed) :
  PrimFloat.ltb 0 (min_amount_threshold (client self)) = true ->
  _parse_transaction self tx T tol = Some r ->
  (exists k e,
     In (k, e) (p_balance_changes r) /\
     p_amount r = PrimFloat.abs (change e) /\
     ((PrimFloat.ltb (change e) 0 = true /\ p_sender r = Some k /\ p_receiver r <> Some k) \/
      (PrimFloat.ltb 0 (change e) = true /\ p_receiver r = Some k /\ p_sender r <> Some k))) /\
  (forall a b, p_sender r = Some a -> p_receiver r = Some b -> a <> b).
Proof.
  intros Hpos H. destruct (MatcherMore.parse_some_inv self tx T tol r H)
    as (meta & best & Hpre & Hbest & Hres).
  apply MatcherFacts.build_result_inv in Hres.
  destruct Hres as (Ha & Hs & Hr & _ & _).
  apply MatcherMore.best_match_in in Hbest. apply filter_In in Hbest.
  destruct Hbest as (Hcand & _).
  destruct (MatcherMore.candidate_is_entry self _ best Hcand) as (Hentry & Hchange & Hsig).
  unfold significant in Hsig.
  assert (Other : forall c,
            counterparty_of self best
              (significant_transfers_of self (p_balance_changes r)) = Some c ->
            account c <> account best).
  { intros c Hc. apply (MatcherMore.counterparty_differs self best c _ Hc). }
  destruct (MatcherMore.sign_of_significant _ _ Hpos Hsig) as [(Neg & NPos)|(Pos & NNeg)].
  - assert (S : p_sender r = Some (account best))
      by (rewrite Hs; unfold sender_of; rewrite Neg; reflexivity).
    assert (R : p_receiver r <> Some (account best)).
    { rewrite Hr. unfold receiver_of. rewrite NPos.
      destruct (counterparty_of _ _ _) as [c|] eqn:C; [|discriminate].
      intros [= E]. exact (Other c eq_refl E). }
    split.
    + exists (account best), (details best). rewrite <- Hchange.
      split; [exact Hentry|]. split; [exact Ha|]. left. auto.
    + intros a b Ea Eb ->. rewrite S in Ea. injection Ea as <-. exact (R Eb).
  - assert (R : p_receiver r = Some (account best))
      by (rewrite Hr; unfold receiver_of; rewrite Pos; reflexivity).
    assert (S : p_sender r <> Some (account best)).
    { rewrite Hs. unfold sender_of. rewrite NNeg.
      destruct (counterparty_of _ _ _) as [c|] eqn:C; [|discriminate].
      intros [= E]. exact (Other c eq_refl E). }
    split.
    + exists (account best), (details best). rewrite <- Hchange.
      split; [exact Hentry|]. split; [exact Ha|]. right. auto.
    + intros a b Ea Eb ->. rewrite R in Eb. injection Eb as <-. exact (S Ea).
Qed.

Lemma matched_account_has_one_role_witness :
  exists r,
    _parse_transaction (scanner 0.001) pay_tx 5 0.01 = Some r /\
    (exists k e,
       In (k, e) (p_balance_changes r) /\
       p_amount r = PrimFloat.abs (change e) /\
       ((PrimFloat.ltb (change e) 0 = true /\ p_sender r = Some k /\
         p_receiver r <> Some k) \/
        (PrimFloat.ltb 0 (change e) = true /\ p_receiver r = Some k /\
         p_sender r <> Some k))) /\
    (forall a b, p_sender r = Some a -> p_receiver r = Some b -> a <> b).
Proof.
  eexists. split; [vm_compute; reflexivity|].
  apply (matched_account_has_one_role (scanner 0.001) pay_tx 5 0.01).
  - vm_compute. reflexivity.
  - vm_compute. reflexivity.
Defined.

(** X12.  The fee decides whether a transaction with a match is reported.
    With no [fee] member the fee is 0.0; with a [null] fee, or a fee too
    large for a float, the exception of line 199 is swallowed and the
    matcher returns nothing; otherwise the fee is the member divided by
    1e9. *)
Theorem fee_decides_the_report
  (self : TransactionScanner) (tx : Tx) (T tol : float)
  (meta : option Meta) (bc : dict BalanceChange) :
  parse_prelude self tx = Ok (Some (meta, bc)) ->
  matches_of T tol (significant_transfers_of self bc) <> [] ->
  exists m,
    meta_of tx = Some m /\
    match m_fee m with
    | Missing => exists r, _parse_transaction self tx T tol = Some r /\ p_fee r = 0%float
    | Null => _parse_transaction self tx T tol = None
    | Val raw =>
        match div_1e9 raw with
        | Ok fee => exists r, _parse_transaction self tx T tol = Some r /\ p_fee r = fee
        | Raise _ => _parse_transaction self tx T tol = None
        end
    end.
Proof.
  intros Hpre Hsome.
  rewrite (MatcherFacts.parse_transaction_prelude self tx T tol meta bc Hpre).
  destruct (MatcherFacts.parse_prelude_inv self tx meta bc Hpre) as (-> & _).
  assert (M : exists m, meta_of tx = Some m).
  { unfold parse_prelude in Hpre.
    destruct (message_of tx); cbn [bind] in Hpre; [|discriminate].
    destruct (meta_of tx) as [m|]; [eauto|discriminate]. }
  destruct M as (m & Hm). exists m. split; [exact Hm|].
  destruct (best_match_of _) as [best|] eqn:B.
  2:{ unfold best_match_of, max_by in B.
      destruct (matches_of T tol _); [congruence|discriminate]. }
  rewrite Hm. unfold build_result. cbn [on_dict bind].
  destruct (m_fee m) as [| |raw]; cbn [get div_1e9_opt bind].
  - change (div_1e9 0) with (Ok 0%float : res float). cbn [bind]. eauto.
  - reflexivity.
  - destruct (div_1e9 raw) as [fee|e]; cbn [bind]; eauto.
Qed.

Lemma fee_decides_the_report_witness :
  exists m,
    meta_of pay_tx = Some m /\
    match m_fee m with
    | Missing =>
        exists r, _parse_transaction (scanner 0.001) pay_tx 5 0.01 = Some r /\
                  p_fee r = 0%float
    | Null => _parse_transaction (scanner 0.001) pay_tx 5 0.01 = None
    | Val raw =>
        match div_1e9 raw with
        | Ok fee =>
            exists r, _parse_transaction (scanner 0.001) pay_tx 5 0.01 = Some r /\
                      p_fee r = fee
        | Raise _ => _parse_transaction (scanner 0.001) pay_tx 5 0.01 = None
        end
    end.
Proof.
  apply (fee_decides_the_report (scanner 0.001) pay_tx 5 0.01 pay_meta pay_changes).
  - vm_compute. reflexivity.
  - vm_compute. discriminate.
Defined.

(** X13.  A tolerance below zero, a tolerance that is a NaN and a target that
    is a NaN match nothing: the matcher returns nothing for every
    transaction, and raises nothing. *)
Theorem hopeless_window_matches_nothing
  (self : TransactionScanner) (tx : Tx) (T tol : float) :
  PrimFloat.ltb tol 0 = true \/ PrimFloat.eqb tol tol = false \/
  PrimFloat.eqb T T = false ->
  _parse_transaction self tx T tol = None.
Proof.
  intros H. destruct (parse_prelude self tx) as [[[meta bc]|]|] eqn:P.
  - rewrite (MatcherFacts.parse_transaction_prelude self tx T tol meta bc P).
    rewrite MatcherMore.matches_none; [reflexivity|].
    intros t. apply MatcherMore.never_within. exact H.
  - unfold _parse_transaction, parse_try. rewrite P. reflexivity.
  - unfold _parse_transaction, parse_try. rewrite P. reflexivity.
Qed.

Lemma hopeless_window_matches_nothing_witness :
  _parse_transaction (scanner 0.001) pay_tx 5 (-1) = None.
Proof.
  apply (hopeless_window_matches_nothing (scanner 0.001) pay_tx 5 (-1)).
  left. vm_compute. reflexivity.
Defined.

(* ------------------------------------------------------------------------- *)
(** * The scan: further statements *)

Module ScanFacts.

Lemma get_block_transactions_eq (endpoint : Endpoint) (slot : Z) (st : ClientState) :
  get_block_transactions endpoint slot st =
  (block_at endpoint (S (request_counter st)) slot, after st [GetBlock slot]).
Proof. reflexivity. Qed.

Lemma scan_for_amount_eq (endpoint : Endpoint) (self : TransactionScanner)
  (T : float) (limit : Z) (tol : float) (st : ClientState) :
  scan_for_amount endpoint self T limit tol st =
  scan_blocks endpoint self T tol (fst (get_recent_blocks endpoint limit st)) []
    (snd (get_recent_blocks endpoint limit st)).
Proof.
  unfold scan_for_amount. destruct (get_recent_blocks endpoint limit st) as [blocks st1].
  cbn [fst snd]. destruct blocks; reflexivity.
Qed.

(** A transaction that the matcher accepts has no [null] transaction member. *)
Lemma accepted_hash (self : TransactionScanner) (T tol : float) (tx : Tx) (e : exn) :
  accepted self T tol tx = true ->
  tx_hash_of tx = Raise e ->
  exists body,
    transaction tx = Val body /\
    ((signatures body = Null /\ e = TypeError) \/
     (signatures body = Val [] /\ e = IndexError)).
Proof.
  unfold accepted. intros Hacc Hh.
  destruct (_parse_transaction self tx T tol) as [r|] eqn:P; [|discriminate].
  apply MatcherFacts.parse_some_prelude in P. destruct P as (meta & P).
  unfold parse_prelude in P.
  destruct (message_of tx) as [msg|] eqn:Hm; cbn [bind] in P; [|discriminate].
  unfold message_of in Hm. unfold tx_hash_of in Hh.
  destruct (transaction tx) as [| |body]; cbn in Hm, Hh; try discriminate.
  exists body. split; [reflexivity|].
  destruct (signatures body) as [| |[|s l]]; cbn in Hh; try discriminate;
    injection Hh as <-; auto.
Qed.

Lemma parsed_amount (self : TransactionScanner) (tx : Tx) (T tol : float) (r : Parsed) :
  _parse_transaction self tx T tol = Some r ->
  PrimFloat.leb (PrimFloat.abs (PrimFloat.sub (p_amount r) T)) tol = true /\
  PrimFloat.leb (min_amount_threshold (client self)) (p_amount r) = true.
Proof.
  intros H. destruct (MatcherMore.parse_some_inv self tx T tol r H)
    as (meta & best & _ & Hbest & Hres).
  apply MatcherFacts.build_result_inv in Hres. destruct Hres as (Ha & _).
  apply MatcherMore.best_match_in in Hbest. apply filter_In in Hbest.
  destruct Hbest as (Hcand & Hwithin).
  destruct (MatcherMore.candidate_is_entry self _ best Hcand) as (_ & _ & Hsig).
  rewrite Ha. split; [exact Hwithin|exact Hsig].
Qed.

Section Block.
Variable self : TransactionScanner.
Variables (T tol : float).
Variables (slot time : Z).

Let scan := scan_transactions self T tol slot time.
Let ok (tx : Tx) : Prop := accepted self T tol tx = true -> hashed tx.

Lemma scan_cons_rejected (tx : Tx) (rest : list Tx) (ms : list Transaction) :
  accepted self T tol tx = false -> scan (tx :: rest) ms = scan rest ms.
Proof.
  unfold accepted, scan. cbn [scan_transactions].
  destruct (_parse_transaction self tx T tol); [discriminate|reflexivity].
Qed.

Lemma scan_cons_accepted (tx : Tx) (rest : list Tx) (ms : list Transaction) :
  accepted self T tol tx = true ->
  exists transfer,
    _parse_transaction self tx T tol = Some transfer /\
    scan (tx :: rest) ms =
    match tx_hash_of tx with
    | Ok h => scan rest (ms ++ [report slot time h transfer])
    | Raise e => Raise e
    end.
Proof.
  unfold accepted, scan. cbn [scan_transactions].
  destruct (_parse_transaction self tx T tol) as [transfer|]; [|discriminate].
  intros _. exists transfer. split; [reflexivity|].
  destruct (tx_hash_of tx); reflexivity.
Qed.

(** When line 229 evaluates for every accepted transaction the block adds
    its reports, in order, to whatever was there. *)
Lemma scan_transactions_passes (txs : list Tx) :
  Forall ok txs ->
  exists added,
    Forall2 (reports self T tol slot time) (filter (accepted self T tol) txs) added /\
    forall ms, scan txs ms = Ok (ms ++ added).
Proof.
  induction 1 as [|tx rest Htx _ IH].
  - exists []. split; [constructor|]. intros ms. rewrite app_nil_r. reflexivity.
  - destruct IH as (added & HF & Hrun). cbn [filter].
    destruct (accepted self T tol tx) eqn:A.
    + destruct (Htx A) as (h & Hh).
      destruct (scan_cons_accepted tx rest [] A) as (transfer & Hp & _).
      exists (report slot time h transfer :: added). split.
      * constructor; [|exact HF]. exists transfer, h. auto.
      * intros ms. destruct (scan_cons_accepted tx rest ms A) as (transfer' & Hp' & ->).
        rewrite Hh, Hrun, <- app_assoc.
        assert (transfer' = transfer) by congruence. subst. reflexivity.
    + exists added. split; [exact HF|]. intros ms.
      rewrite scan_cons_rejected by exact A. apply Hrun.
Qed.

(** The first accepted transaction for which line 229 raises stops the
    block. *)
Lemma scan_transactions_fails (before : list Tx) (tx : Tx) (rest : list Tx)
  (e : exn) (ms : list Transaction) :
  Forall ok before ->
  accepted self T tol tx = true ->
  tx_hash_of tx = Raise e ->
  scan (before ++ tx :: rest) ms = Raise e.
Proof.
  intros Hb. revert ms. induction Hb as [|tx' before Htx _ IH]; intros ms A Hh.
  - cbn [app]. destruct (scan_cons_accepted tx rest ms A) as (transfer & _ & ->).
    rewrite Hh. reflexivity.
  - cbn [app]. destruct (accepted self T tol tx') eqn:A'.
    + destruct (scan_cons_accepted tx' (before ++ tx :: rest) ms A') as (tr & _ & ->).
      destruct (Htx A') as (h & ->). apply IH; assumption.
    + rewrite scan_cons_rejected by exact A'. apply IH; assumption.
Qed.

(** Every block either passes or has a first transaction that stops it. *)
Lemma scan_transactions_cases (txs : list Tx) :
  Forall ok txs \/
  exists before tx rest e,
    txs = before ++ tx :: rest /\ Forall ok before /\
    accepted self T tol tx = true /\ tx_hash_of tx = Raise e.
Proof.
  induction txs as [|tx rest IH]; [left; constructor|].
  destruct (accepted self T tol tx) eqn:A.
  - destruct (tx_hash_of tx) as [h|e] eqn:Hh.
    + assert (Htx : ok tx) by (intros _; exists h; exact Hh).
      destruct IH as [IH|(before & tx' & rest' & e & -> & Hb & A' & Hh')].
      * left. constructor; assumption.
      * right. exists (tx :: before), tx', rest', e. repeat split; auto.
    + right. exists [], tx, rest, e. repeat split; auto.
  - assert (Htx : ok tx) by (intros A'; congruence).
    destruct IH as [IH|(before & tx' & rest' & e & -> & Hb & A' & Hh')].
    + left. constructor; assumption.
    + right. exists (tx :: before), tx', rest', e. repeat split; auto.
Qed.

Lemma scan_transactions_ok_inv (txs : list Tx) (ms ms' : list Transaction) :
  scan txs ms = Ok ms' ->
  Forall ok txs /\
  exists added,
    ms' = ms ++ added /\
    Forall2 (reports self T tol slot time) (filter (accepted self T tol) txs) added.
Proof.
  intros Hrun.
  destruct (scan_transactions_cases txs) as [Hok|(b & tx & r & e & -> & Hb & A & Hh)].
  - split; [exact Hok|]. destruct (scan_transactions_passes txs Hok) as (added & HF & H).
    exists added. rewrite H in Hrun. injection Hrun as <-. auto.
  - rewrite (scan_transactions_fails b tx r e ms Hb A Hh) in Hrun. discriminate.
Qed.

Lemma scan_transactions_raise_inv (txs : list Tx) (ms : list Transaction) (e : exn) :
  scan txs ms = Raise e ->
  exists before tx rest,
    txs = before ++ tx :: rest /\ Forall ok before /\
    accepted self T tol tx = true /\ tx_hash_of tx = Raise e.
Proof.
  intros Hrun.
  destruct (scan_transactions_cases txs) as [Hok|(b & tx & r & e' & -> & Hb & A & Hh)].
  - destruct (scan_transactions_passes txs Hok) as (added & _ & H).
    rewrite H in Hrun. discriminate.
  - rewrite (scan_transactions_fails b tx r e' ms Hb A Hh) in Hrun.
    injection Hrun as <-. exists b, tx, r. auto.
Qed.
End Block.

Section Blocks.
Variable endpoint : Endpoint.
Variable self : TransactionScanner.
Variables (T tol : float).

Let passes := block_passes self T tol endpoint.
Let fails := block_fails self T tol endpoint.

Lemma block_at_raises (id : nat) (slot : Z) (e : exn) :
  block_at endpoint id slot = Raise e -> e = AttributeError.
Proof.
  unfold block_at. cbv zeta. destruct (truthy _); [|discriminate].
  destruct (result_of _) as [[block|]|]; try discriminate. intros [= <-]. reflexivity.
Qed.

Lemma passes_not_fails (id : nat) (block : Z * Z) (e : exn) :
  passes id block -> fails id block e -> False.
Proof.
  intros (txs & Hat & Hok) [Hr|(txs' & b & tx & r & Hat' & -> & _ & A & Hh)].
  - congruence.
  - rewrite Hat in Hat'. injection Hat' as ->.
    apply Forall_app in Hok. destruct Hok as (_ & Hok).
    inversion Hok as [|? ? Htx _]; subst. destruct (Htx A) as (h & Hh'). congruence.
Qed.

Lemma fails_unique (id : nat) (block : Z * Z) (e e' : exn) :
  fails id block e -> fails id block e' -> e = e'.
Proof.
  intros [Hr|(txs & b & tx & r & Hat & -> & Hb & A & Hh)]
         [Hr'|(txs' & b' & tx' & r' & Hat' & E' & Hb' & A' & Hh')]; try congruence.
  rewrite Hat in Hat'. injection Hat' as <-.
  pose proof (scan_transactions_fails self T tol 0%Z 0%Z b tx r e [] Hb A Hh) as R.
  rewrite E' in R.
  rewrite (scan_transactions_fails self T tol 0%Z 0%Z b' tx' r' e' [] Hb' A' Hh') in R.
  congruence.
Qed.

Lemma fails_kind (id : nat) (block : Z * Z) (e : exn) :
  fails id block e -> e = AttributeError \/ e = TypeError \/ e = IndexError.
Proof.
  intros [Hr|(txs & b & tx & r & _ & _ & _ & A & Hh)].
  - left. eapply block_at_raises; eauto.
  - destruct (accepted_hash self T tol tx e A Hh) as (body & _ & [(_ & ->)|(_ & ->)]); auto.
Qed.

(** The two outcomes of the loop over the blocks. *)
Lemma scan_blocks_outcome (blocks : list (Z * Z)) : forall ms st,
  (exists groups,
     scan_blocks endpoint self T tol blocks ms st =
     (Ok (ms ++ List.concat groups), after st (map GetBlock (map fst blocks))) /\
     Forall2 (block_reports self T tol endpoint)
       (numbered (S (request_counter st)) blocks) groups /\
     forall i b, nth_error blocks i = Some b -> passes (S (request_counter st) + i)%nat b)
  \/
  (exists i block e,
     nth_error blocks i = Some block /\
     fails (S (request_counter st) + i)%nat block e /\
     (forall j b, (j < i)%nat -> nth_error blocks j = Some b ->
                  passes (S (request_counter st) + j)%nat b) /\
     scan_blocks endpoint self T tol blocks ms st =
     (Raise e, after st (map GetBlock (firstn (S i) (map fst blocks))))).
Proof.
  induction blocks as [|[slot time] rest IH]; intros ms st.
  - left. exists []. cbn. rewrite app_nil_r, ResolverFacts.after_nil.
    split; [reflexivity|]. split; [constructor|]. intros [|i] b H; discriminate.
  - cbn [scan_blocks]. rewrite get_block_transactions_eq.
    set (id := S (request_counter st)).
    destruct (block_at endpoint id slot) as [txs|e] eqn:B.
    + destruct (scan_transactions_cases self T tol txs)
        as [Hok|(b & tx & r & e & E & Hb & A & Hh)].
      * destruct (scan_transactions_passes self T tol slot time txs Hok)
          as (added & HF & Hrun).
        rewrite Hrun.
        assert (P0 : passes id (slot, time)) by (exists txs; auto).
        destruct (IH (ms ++ added) (after st [GetBlock slot]))
          as [(groups & Hgo & HG & Hp)|(i & block & e & Hn & Hf & Hp & Hgo)];
          rewrite Hgo, ResolverFacts.after_after;
          change (request_counter (after st [GetBlock slot])) with id in *.
        -- left. exists (added :: groups). cbn [List.concat map app fst].
           rewrite app_assoc. split; [reflexivity|]. split.
           ++ unfold numbered. cbn [List.length seq combine]. constructor; [|exact HG].
              exists txs. auto.
           ++ intros [|i] b' Hn; cbn in Hn.
              ** injection Hn as <-. rewrite Nat.add_0_r. exact P0.
              ** replace (id + S i)%nat with (S id + i)%nat by lia. apply Hp. exact Hn.
        -- right. exists (S i), block, e. split; [exact Hn|]. split.
           ++ replace (id + S i)%nat with (S id + i)%nat by lia. exact Hf.
           ++ split; [|reflexivity].
              intros [|j] b' Hlt Hn'; cbn in Hn'.
              ** injection Hn' as <-. rewrite Nat.add_0_r. exact P0.
              ** replace (id + S j)%nat with (S id + j)%nat by lia.
                 apply Hp; [lia|exact Hn'].
      * right. exists 0%nat, (slot, time), e. split; [reflexivity|]. split.
        -- rewrite Nat.add_0_r. right. exists txs, b, tx, r. auto.
        -- split; [intros j b' Hlt; lia|].
           subst txs. rewrite (scan_transactions_fails self T tol slot time b tx r e ms Hb A Hh).
           reflexivity.
    + right. exists 0%nat, (slot, time), e. split; [reflexivity|]. split.
      * rewrite Nat.add_0_r. left. exact B.
      * split; [intros j b' Hlt; lia|reflexivity].
Qed.

(** The failing block of a scan is determined. *)
Lemma first_failure_unique (blocks : list (Z * Z)) (first i i' : nat)
  (block block' : Z * Z) (e e' : exn) :
  nth_error blocks i = Some block -> fails (first + i)%nat block e ->
  (forall j b, (j < i)%nat -> nth_error blocks j = Some b -> passes (first + j)%nat b) ->
  nth_error blocks i' = Some block' -> fails (first + i')%nat block' e' ->
  (forall j b, (j < i')%nat -> nth_error blocks j = Some b -> passes (first + j)%nat b) ->
  i = i' /\ e = e'.
Proof.
  intros Hn Hf Hp Hn' Hf' Hp'.
  destruct (Nat.lt_trichotomy i i') as [L|[E|L]].
  - exfalso. exact (passes_not_fails _ _ _ (Hp' i block L Hn) Hf).
  - subst i'. split; [reflexivity|].
    assert (block' = block) by congruence. subst block'.
    eapply fails_unique; eauto.
  - exfalso. exact (passes_not_fails _ _ _ (Hp i' block' L Hn') Hf').
Qed.
End Blocks.

(** The blocks that the resolver hands to the scan: descending by slot, each
    with a block time other than zero. *)
Lemma recent_blocks_facts (endpoint : Endpoint) (limit : Z) (st : ClientState) :
  StronglySorted slot_ge (fst (get_recent_blocks endpoint limit st)) /\
  forall slot t, In (slot, t) (fst (get_recent_blocks endpoint limit st)) -> t <> 0%Z.
Proof.
  pose proof (ResolverFacts.get_recent_blocks_eq endpoint limit st) as E.
  cbv zeta in E. rewrite E. clear E.
  destruct (slots_at _ _ _ _) as [slots|]; cbn [fst].
  - split; [apply ResolverFacts.sorted_reverse_descending|].
    intros slot t Hin.
    apply (Permutation_in _ (Permutation_sym (ResolverFacts.sorted_reverse_perm _))) in Hin.
    apply ResolverFacts.in_kept in Hin. destruct Hin as (n & _ & _ & Hne). exact Hne.
  - split; [constructor|]. intros slot t [].
Qed.

(** Groups that hang on blocks descending by slot are, once concatenated,
    descending by block height. *)
Lemma concat_descending (P : nat * (Z * Z) -> list Transaction -> Prop)
  (blocks : list (Z * Z)) : forall (first : nat) (groups : list (list Transaction)),
  (forall n g, P n g -> Forall (fun t => block_height t = fst (snd n)) g) ->
  StronglySorted slot_ge blocks ->
  Forall2 P (numbered first blocks) groups ->
  StronglySorted height_ge (List.concat groups) /\
  Forall (fun t => exists b, In b blocks /\ block_height t = fst b) (List.concat groups).
Proof.
  induction blocks as [|b rest IH]; intros first groups HP HS HF.
  - inversion HF; subst. cbn. split; constructor.
  - unfold numbered in HF. cbn [List.length seq combine] in HF.
    inversion HF as [|? g ? groups' Hg HF']; subst.
    inversion HS as [|? ? HS' Hall]; subst.
    destruct (IH (S first) groups' HP HS' HF') as (Sorted & Heights).
    apply HP in Hg. cbn [snd] in Hg. cbn [List.concat]. split.
    + clear - Hg Sorted Heights Hall. induction g as [|t g IHg]; cbn [app]; [exact Sorted|].
      inversion Hg as [|? ? Ht Hg']; subst. constructor; [apply IHg; exact Hg'|].
      apply Forall_app. split.
      * eapply Forall_impl; [|exact Hg']. intros t' Ht'. unfold height_ge. cbv beta in Ht'. lia.
      * eapply Forall_impl; [|exact Heights]. intros t' (b' & Hin & Hb').
        rewrite Forall_forall in Hall. specialize (Hall b' Hin).
        unfold height_ge, slot_ge in *. cbv beta in *. lia.
    + apply Forall_app. split.
      * eapply Forall_impl; [|exact Hg]. intros t Ht. exists b. split; [left; reflexivity|exact Ht].
      * eapply Forall_impl; [|exact Heights]. intros t (b' & Hin & Hb').
        exists b'. split; [right; exact Hin|exact Hb'].
Qed.

Lemma in_groups {A B : Type} (P : A -> list B -> Prop) (l : list A)
  (groups : list (list B)) (t : B) :
  Forall2 P l groups -> In t (List.concat groups) ->
  exists n g, In n l /\ P n g /\ In t g.
Proof.
  induction 1 as [|n g l groups Hg _ IH]; cbn [List.concat]; [intros []|].
  intros Hin. apply in_app_or in Hin. destruct Hin as [Hin|Hin].
  - exists n, g. split; [left; reflexivity|]. auto.
  - destruct (IH Hin) as (n' & g' & H1 & H2 & H3).
    exists n', g'. split; [right; exact H1|]. auto.
Qed.

Lemma reports_of_group {A : Type} (R : A -> Transaction -> Prop) (l : list A)
  (g : list Transaction) (t : Transaction) :
  Forall2 R l g -> In t g -> exists x, In x l /\ R x t.
Proof.
  induction 1 as [|x y l g Hxy _ IH]; [intros []|].
  intros [<-|Hin].
  - exists x. split; [left; reflexivity|exact Hxy].
  - destruct (IH Hin) as (x' & H1 & H2). exists x'. split; [right; exact H1|exact H2].
Qed.

Lemma group_heights (self : TransactionScanner) (T tol : float) (endpoint : Endpoint)
  (n : nat * (Z * Z)) (g : list Transaction) :
  block_reports self T tol endpoint n g ->
  Forall (fun t => block_height t = fst (snd n)) g.
Proof.
  destruct n as [id [slot time]]. intros (txs & _ & HF). apply Forall_forall.
  intros t Hin. destruct (reports_of_group _ _ _ _ HF Hin) as (tx & _ & tr & h & _ & _ & ->).
  reflexivity.
Qed.

(** ** From the shapes of the answers to the outcome of a block *)

Lemma block_holds_at (endpoint : Endpoint) (id : nat) (slot : Z) (txs : list Tx) :
  block_holds endpoint id slot txs -> block_at endpoint id slot = Ok txs.
Proof.
  unfold block_at. cbv zeta.
  intros [(-> & ->)|[(r & -> & Hr & ->)|(r & block & -> & Hr & ->)]].
  - reflexivity.
  - unfold truthy, result_of. rewrite Hr. destruct (error r); reflexivity.
  - unfold truthy, result_of. rewrite Hr. reflexivity.
Qed.

Lemma null_block_at (endpoint : Endpoint) (id : nat) (slot : Z) :
  null_block endpoint id slot -> block_at endpoint id slot = Raise AttributeError.
Proof.
  unfold block_at. cbv zeta. intros (r & -> & Hr).
  unfold truthy, result_of. rewrite Hr. reflexivity.
Qed.

Lemma usable_hashed (tx : Tx) : usable_signatures tx -> hashed tx.
Proof.
  unfold hashed, tx_hash_of.
  intros [Ht|(body & Ht & [Hs|(s & rest & Hs)])]; rewrite Ht; cbn [get on_dict bind];
    [|rewrite Hs|rewrite Hs]; cbn; eauto.
Qed.

Lemma null_signatures_raise (tx : Tx) :
  null_signatures tx -> tx_hash_of tx = Raise TypeError.
Proof.
  unfold tx_hash_of. intros (body & Ht & Hs). rewrite Ht. cbn [get on_dict bind].
  rewrite Hs. reflexivity.
Qed.

Lemma empty_signatures_raise (tx : Tx) :
  empty_signatures tx -> tx_hash_of tx = Raise IndexError.
Proof.
  unfold tx_hash_of. intros (body & Ht & Hs). rewrite Ht. cbn [get on_dict bind].
  rewrite Hs. reflexivity.
Qed.

Lemma accepted_iff (self : TransactionScanner) (T tol : float) (tx : Tx) :
  accepted self T tol tx = true <-> _parse_transaction self tx T tol <> None.
Proof.
  unfold accepted. destruct (_parse_transaction self tx T tol); split; congruence.
Qed.

Lemma clean_passes (self : TransactionScanner) (T tol : float) (endpoint : Endpoint)
  (id : nat) (block : Z * Z) :
  clean_block self T tol endpoint id block -> block_passes self T tol endpoint id block.
Proof.
  intros (txs & Hh & Hu). exists txs. split; [apply block_holds_at; exact Hh|].
  apply Forall_forall. intros tx Hin A. apply usable_hashed, (Hu tx Hin).
  apply accepted_iff. exact A.
Qed.

Section Outcome.
Variable endpoint : Endpoint.
Variable self : TransactionScanner.
Variables (T tol : float) (limit : Z) (st : ClientState).

Let blocks := fst (get_recent_blocks endpoint limit st).
Let first := S (request_counter (snd (get_recent_blocks endpoint limit st))).

Lemma scan_returns_when_all_pass :
  (forall i b, nth_error blocks i = Some b ->
               block_passes self T tol endpoint (first + i)%nat b) ->
  exists ms, fst (scan_for_amount endpoint self T limit tol st) = Ok ms.
Proof.
  intros Hall. rewrite scan_for_amount_eq.
  destruct (scan_blocks_outcome endpoint self T tol blocks []
              (snd (get_recent_blocks endpoint limit st)))
    as [(groups & Hrun & _ & _)|(i & block & e & Hn & Hf & _ & _)].
  - unfold blocks in Hrun. rewrite Hrun. cbn [fst]. eauto.
  - exfalso. exact (passes_not_fails endpoint self T tol _ _ _ (Hall i block Hn) Hf).
Qed.

Lemma scan_raises_at_first_failure (i : nat) (block : Z * Z) (e : exn) :
  nth_error blocks i = Some block ->
  block_fails self T tol endpoint (first + i)%nat block e ->
  (forall j b, (j < i)%nat -> nth_error blocks j = Some b ->
               block_passes self T tol endpoint (first + j)%nat b) ->
  fst (scan_for_amount endpoint self T limit tol st) = Raise e.
Proof.
  intros Hn Hf Hp. rewrite scan_for_amount_eq.
  destruct (scan_blocks_outcome endpoint self T tol blocks []
              (snd (get_recent_blocks endpoint limit st)))
    as [(groups & _ & _ & Hall)|(i' & block' & e' & Hn' & Hf' & Hp' & Hrun)].
  - exfalso. exact (passes_not_fails endpoint self T tol _ _ _ (Hall i block Hn) Hf).
  - unfold blocks in Hrun. rewrite Hrun.
    destruct (first_failure_unique endpoint self T tol blocks first i i' block block' e e'
                Hn Hf Hp Hn' Hf' Hp') as (_ & ->).
    reflexivity.
Qed.
End Outcome.

End ScanFacts.

(** X14.  What a scan that returns has collected: for each resolved block in
    turn, in the order in which the resolver gave them, one record for each
    transaction of that block that the matcher accepts, in the block's
    order, carrying the block's slot and time, the first signature of the
    transaction and what the matcher returned for it.  Nothing else is in
    the list, and nothing accepted is missing. *)
Theorem scan_collects_accepted_transactions
  (endpoint : Endpoint) (self : TransactionScanner) (T : float) (limit : Z) (tol : float)
  (st : ClientState) (ms : list Transaction) :
  fst (scan_for_amount endpoint self T limit tol st) = Ok ms ->
  exists groups,
    ms = List.concat groups /\
    Forall2 (block_reports self T tol endpoint)
      (numbered (S (request_counter (snd (get_recent_blocks endpoint limit st))))
                (fst (get_recent_blocks endpoint limit st)))
      groups.
Proof.
  rewrite ScanFacts.scan_for_amount_eq.
  destruct (ScanFacts.scan_blocks_outcome endpoint self T tol
              (fst (get_recent_blocks endpoint limit st)) []
              (snd (get_recent_blocks endpoint limit st)))
    as [(groups & -> & HG & _)|(i & block & e & _ & _ & _ & ->)]; cbn [fst app].
  - intros [= <-]. exists groups. auto.
  - discriminate.
Qed.

Lemma scan_collects_accepted_transactions_witness :
  exists ms groups,
    fst (scan_for_amount (one_block (Some 1700000000%Z) [pay_tx])
           (scanner 0.001) 5 5 0.01 fresh) = Ok ms /\
    ms = List.concat groups /\
    Forall2 (block_reports (scanner 0.001) 5 0.01
               (one_block (Some 1700000000%Z) [pay_tx]))
      (numbered
         (S (request_counter
               (snd (get_recent_blocks (one_block (Some 1700000000%Z) [pay_tx]) 5 fresh))))
         (fst (get_recent_blocks (one_block (Some 1700000000%Z) [pay_tx]) 5 fresh)))
      groups.
Proof.
  eexists.
  destruct (scan_collects_accepted_transactions
              (one_block (Some 1700000000%Z) [pay_tx]) (scanner 0.001) 5 5 0.01 fresh
              _ ltac:(vm_compute; reflexivity)) as (groups & H1 & H2).
  exists groups. split; [vm_compute; reflexivity|]. split; [exact H1|exact H2].
Defined.

(** X15.  Every record of a scan that returns is sound: its slot and time
    are those of a resolved block, the time is not zero, its amount is within
    the tolerance of the target as the code computes the difference and is
    at least the threshold.  The records are in descending order of block
    height. *)
Theorem scan_records_are_sound
  (endpoint : Endpoint) (self : TransactionScanner) (T : float) (limit : Z) (tol : float)
  (st : ClientState) (ms : list Transaction) :
  fst (scan_for_amount endpoint self T limit tol st) = Ok ms ->
  Forall
    (fun t =>
       In (block_height t, block_time t) (fst (get_recent_blocks endpoint limit st)) /\
       block_time t <> 0%Z /\
       PrimFloat.leb (PrimFloat.abs (PrimFloat.sub (amount t) T)) tol = true /\
       PrimFloat.leb (min_amount_threshold (client self)) (amount t) = true)
    ms /\
  StronglySorted height_ge ms.
Proof.
  rewrite ScanFacts.scan_for_amount_eq.
  destruct (ScanFacts.recent_blocks_facts endpoint limit st) as (Desc & Times).
  destruct (ScanFacts.scan_blocks_outcome endpoint self T tol
              (fst (get_recent_blocks endpoint limit st)) []
              (snd (get_recent_blocks endpoint limit st)))
    as [(groups & -> & HG & _)|(i & block & e & _ & _ & _ & ->)]; cbn [fst app];
    [|discriminate].
  intros [= <-]. split.
  - apply Forall_forall. intros t Hin.
    destruct (ScanFacts.in_groups _ _ _ t HG Hin) as ([id [slot time]] & g & Hn & Hg & Ht).
    unfold numbered in Hn. apply in_combine_r in Hn.
    destruct Hg as (txs & _ & HF).
    destruct (ScanFacts.reports_of_group _ _ _ _ HF Ht) as (tx & _ & tr & h & Hp & _ & ->).
    cbn [report block_height block_time amount].
    destruct (ScanFacts.parsed_amount self tx T tol tr Hp) as (Hw & Hth).
    split; [exact Hn|]. split; [exact (Times slot time Hn)|]. auto.
  - eapply (ScanFacts.concat_descending (block_reports self T tol endpoint)); eauto.
    intros n g. apply ScanFacts.group_heights.
Qed.

Lemma scan_records_are_sound_witness :
  exists ms,
    fst (scan_for_amount (one_block (Some 1700000000%Z) [pay_tx])
           (scanner 0.001) 5 5 0.01 fresh) = Ok ms /\
    Forall
      (fun t =>
         In (block_height t, block_time t)
            (fst (get_recent_blocks (one_block (Some 1700000000%Z) [pay_tx]) 5 fresh)) /\
         block_time t <> 0%Z /\
         PrimFloat.leb (PrimFloat.abs (PrimFloat.sub (amount t) 5)) 0.01 = true /\
         PrimFloat.leb (min_amount_threshold (client (scanner 0.001))) (amount t) = true)
      ms /\
    StronglySorted height_ge ms.
Proof.
  eexists. split; [vm_compute; reflexivity|].
  apply (scan_records_are_sound (one_block (Some 1700000000%Z) [pay_tx])
           (scanner 0.001) 5 5 0.01 fresh).
  vm_compute. reflexivity.
Defined.

(** X16.  What stops a scan, for the blocks that the resolver returned and
    [getBlock] answers of these shapes: no answer, no result, a [null]
    result, or a block object whose [transactions] member is absent or a
    list.  Call a block clean when its answer is not [null] and every
    transaction in it that the matcher accepts has no [signatures] member or
    a first signature.  When every resolved block is clean the scan returns
    a list.  At the first block that is not clean the scan raises instead:
    [AttributeError] when that block's answer is [null]; and when the
    first accepted transaction without usable signatures has
    ["signatures": null], [TypeError], when it has ["signatures": []],
    [IndexError]. *)
Theorem scan_stops_at_first_unclean_block
  (endpoint : Endpoint) (self : TransactionScanner) (T : float) (limit : Z) (tol : float)
  (st : ClientState) :
  let blocks := fst (get_recent_blocks endpoint limit st) in
  let first := S (request_counter (snd (get_recent_blocks endpoint limit st))) in
  ((forall i b, nth_error blocks i = Some b ->
                clean_block self T tol endpoint (first + i)%nat b) ->
   exists ms, fst (scan_for_amount endpoint self T limit tol st) = Ok ms) /\
  (forall i block,
     nth_error blocks i = Some block ->
     (forall j b, (j < i)%nat -> nth_error blocks j = Some b ->
                  clean_block self T tol endpoint (first + j)%nat b) ->
     (null_block endpoint (first + i)%nat (fst block) ->
      fst (scan_for_amount endpoint self T limit tol st) = Raise AttributeError) /\
     (forall txs before tx rest,
        block_holds endpoint (first + i)%nat (fst block) txs ->
        txs = before ++ tx :: rest ->
        (forall tx', In tx' before ->
                     _parse_transaction self tx' T tol <> None ->
                     usable_signatures tx') ->
        _parse_transaction self tx T tol <> None ->
        (null_signatures tx ->
         fst (scan_for_amount endpoint self T limit tol st) = Raise TypeError) /\
        (empty_signatures tx ->
         fst (scan_for_amount endpoint self T limit tol st) = Raise IndexError))).
Proof.
  cbv zeta. split.
  - intros Hall. apply ScanFacts.scan_returns_when_all_pass.
    intros i b Hn. apply ScanFacts.clean_passes, Hall. exact Hn.
  - intros i block Hn Hclean.
    assert (Hp : forall j b, (j < i)%nat ->
              nth_error (fst (get_recent_blocks endpoint limit st)) j = Some b ->
              block_passes self T tol endpoint
                (S (request_counter (snd (get_recent_blocks endpoint limit st))) + j)%nat b).
    { intros j b Hlt Hj. apply ScanFacts.clean_passes, (Hclean j b Hlt Hj). }
    split.
    + intros Hnull.
      apply (ScanFacts.scan_raises_at_first_failure endpoint self T tol limit st i block
               AttributeError Hn); [|exact Hp].
      left. apply ScanFacts.null_block_at. exact Hnull.
    + intros txs before tx rest Hholds Htxs Hbefore Hacc.
      assert (Fails : forall e, tx_hash_of tx = Raise e ->
                block_fails self T tol endpoint
                  (S (request_counter (snd (get_recent_blocks endpoint limit st))) + i)%nat
                  block e).
      { intros e He. right. exists txs, before, tx, rest.
        split; [apply ScanFacts.block_holds_at; exact Hholds|].
        split; [exact Htxs|]. split.
        - apply Forall_forall. intros tx' Hin A.
          apply ScanFacts.usable_hashed, (Hbefore tx' Hin).
          apply ScanFacts.accepted_iff. exact A.
        - split; [apply ScanFacts.accepted_iff; exact Hacc|exact He]. }
      split; intros Hsig.
      * apply (ScanFacts.scan_raises_at_first_failure endpoint self T tol limit st i block
                 TypeError Hn); [|exact Hp].
        apply Fails, ScanFacts.null_signatures_raise. exact Hsig.
      * apply (ScanFacts.scan_raises_at_first_failure endpoint self T tol limit st i block
                 IndexError Hn); [|exact Hp].
        apply Fails, ScanFacts.empty_signatures_raise. exact Hsig.
Qed.

Lemma scan_stops_at_first_unclean_block_witness :
  fst (scan_for_amount null_blocks (scanner 0.001) 5 5 0.01 fresh) = Raise AttributeError.
Proof.
  refine (proj1 (proj2 (scan_stops_at_first_unclean_block
                          null_blocks (scanner 0.001) 5 5 0.01 fresh)
                   0%nat (100%Z, 1700000000%Z) _ _) _).
  - reflexivity.
  - intros j b Hlt. inversion Hlt.
  - eexists. split; reflexivity.
Defined.

(** X17.  The requests of a scan.  After the requests of the resolver the
    scan issues one [getBlock] request for each resolved block, in the
    resolver's order, and nothing else; a scan that raises has issued them
    up to and including the block at which it stopped. *)
Theorem scan_requests_one_block_each
  (endpoint : Endpoint) (self : TransactionScanner) (T : float) (limit : Z) (tol : float)
  (st : ClientState) :
  let blocks := fst (get_recent_blocks endpoint limit st) in
  let resolved := snd (get_recent_blocks endpoint limit st) in
  exists k,
    (k <= List.length blocks)%nat /\
    snd (scan_for_amount endpoint self T limit tol st)
    = after resolved (map GetBlock (firstn k (map fst blocks))) /\
    match fst (scan_for_amount endpoint self T limit tol st) with
    | Ok _ => k = List.length blocks
    | Raise e =>
        exists i block,
          k = S i /\ nth_error blocks i = Some block /\
          block_fails self T tol endpoint (S (request_counter resolved) + i)%nat block e
    end.
Proof.
  cbv zeta. rewrite ScanFacts.scan_for_amount_eq.
  set (blocks := fst (get_recent_blocks endpoint limit st)).
  set (st1 := snd (get_recent_blocks endpoint limit st)).
  destruct (ScanFacts.scan_blocks_outcome endpoint self T tol blocks [] st1)
    as [(groups & -> & _ & _)|(i & block & e & Hn & Hf & _ & ->)]; cbn [fst snd].
  - exists (List.length blocks). split; [lia|]. split; [|reflexivity].
    rewrite <- (length_map fst blocks), firstn_all. reflexivity.
  - exists (S i). split.
    + assert (i < List.length blocks)%nat by (apply nth_error_Some; congruence). lia.
    + split; [reflexivity|]. exists i, block. auto.
Qed.

(* ------------------------------------------------------------------------- *)
(** * Where the matcher looks for the message *)

Module LayoutFacts.

(** The matcher reads a transaction through its metadata and its message
    only. *)
Lemma parse_transaction_ext (self : TransactionScanner) (tx tx' : Tx) (T tol : float) :
  meta_of tx = meta_of tx' ->
  message_of tx = message_of tx' ->
  _parse_transaction self tx T tol = _parse_transaction self tx' T tol.
Proof.
  intros Hmeta Hmsg. unfold _parse_transaction, parse_try, parse_prelude.
  rewrite Hmeta, Hmsg. reflexivity.
Qed.

End LayoutFacts.

(** X18.  Where the message is taken from (line 150).  When the transaction
    object has a [transaction] member its top-level [message] member is never
    read, whatever it holds; when that member is [null] the matcher returns
    nothing; when there is no [transaction] member the top-level [message]
    is used, and the result is the one the matcher gives for the same message
    nested under a [transaction] member. *)
Theorem nested_message_takes_precedence
  (self : TransactionScanner) (tx : Tx) (T tol : float) :
  (forall other,
     contains (transaction tx) = true ->
     _parse_transaction self
       {| meta := meta tx; transaction := transaction tx; message := other |} T tol
     = _parse_transaction self tx T tol) /\
  (transaction tx = Null -> _parse_transaction self tx T tol = None) /\
  (forall sigs,
     transaction tx = Missing ->
     _parse_transaction self
       {| meta := meta tx;
          transaction := Val {| b_message := message tx; signatures := sigs |};
          message := Missing |} T tol
     = _parse_transaction self tx T tol).
Proof.
  split; [|split].
  - intros other Hc. apply LayoutFacts.parse_transaction_ext; [reflexivity|].
    unfold message_of. cbn [transaction message]. rewrite Hc. reflexivity.
  - intros Hnull. unfold _parse_transaction, parse_try, parse_prelude, message_of.
    rewrite Hnull. reflexivity.
  - intros sigs Hmiss. apply LayoutFacts.parse_transaction_ext; [reflexivity|].
    unfold message_of. cbn [transaction message]. rewrite Hmiss. reflexivity.
Qed.

(* ------------------------------------------------------------------------- *)
(** * A threshold that is a NaN *)

Module ThresholdFacts.

Lemma nan_threshold (self : TransactionScanner) (c : float) :
  PrimFloat.eqb (min_amount_threshold (client self)) (min_amount_threshold (client self))
    = false ->
  significant self c = false.
Proof.
  intros H. unfold significant.
  destruct (PrimFloat.leb _ _) eqn:E; [|reflexivity].
  apply FloatFacts.leb_rank in E. destruct E as (N & _ & _).
  assert (PrimFloat.eqb (min_amount_threshold (client self))
                        (min_amount_threshold (client self)) = true)
    by (apply FloatFacts.eqb_rank; auto).
  congruence.
Qed.

End ThresholdFacts.

(** X19.  A threshold that is a NaN passes the check [min_amount <= 0] of
    [main] and silences the scanner: no change is ever at least the
    threshold, so the extractor returns the empty dictionary whenever it
    returns, and the matcher returns nothing for every transaction. *)
Theorem nan_threshold_reports_nothing
  (self : TransactionScanner) :
  PrimFloat.eqb (min_amount_threshold (client self)) (min_amount_threshold (client self))
    = false ->
  PrimFloat.leb (min_amount_threshold (client self)) 0 = false /\
  (forall pre post keys changes,
     _analyze_balance_changes self pre post keys = Ok changes -> changes = []) /\
  (forall tx T tol, _parse_transaction self tx T tol = None).
Proof.
  intros Hnan.
  assert (Empty : forall pre post keys changes,
            _analyze_balance_changes self pre post keys = Ok changes -> changes = []).
  { intros pre post keys changes Hrun. destruct changes as [|[k e] d]; [reflexivity|].
    pose proof (MatcherMore.entries_significant self pre post keys _ Hrun k e
                  (or_introl eq_refl)) as S.
    rewrite (ThresholdFacts.nan_threshold self (change e) Hnan) in S. discriminate. }
  split; [|split; [exact Empty|]].
  - destruct (PrimFloat.leb _ 0) eqn:E; [|reflexivity].
    apply FloatFacts.leb_rank in E. destruct E as (N & _ & _).
    assert (PrimFloat.eqb (min_amount_threshold (client self))
                          (min_amount_threshold (client self)) = true)
      by (apply FloatFacts.eqb_rank; auto).
    congruence.
  - intros tx T tol. destruct (parse_prelude self tx) as [[[meta bc]|]|] eqn:P.
    + rewrite (MatcherFacts.parse_transaction_prelude self tx T tol meta bc P).
      apply MatcherFacts.parse_prelude_inv in P. destruct P as (_ & Hrun).
      rewrite (Empty _ _ _ _ Hrun). reflexivity.
    + unfold _parse_transaction, parse_try. rewrite P. reflexivity.
    + unfold _parse_transaction, parse_try. rewrite P. reflexivity.
Qed.

Lemma nan_threshold_reports_nothing_witness :
  PrimFloat.leb (min_amount_threshold (client (scanner PrimFloat.nan))) 0 = false /\
  (forall pre post keys changes,
     _analyze_balance_changes (scanner PrimFloat.nan) pre post keys = Ok changes ->
     changes = []) /\
  (forall tx T tol, _parse_transaction (scanner PrimFloat.nan) tx T tol = None).
Proof.
  apply (nan_threshold_reports_nothing (scanner PrimFloat.nan)).
  vm_compute. reflexivity.
Defined.
